(** * source-greenhouse: pagination, nested traversal and access probing

    A shallow embedding of
    [airbyte-integrations/connectors/source-greenhouse/source_greenhouse/client.py]:
    the generator [paginator], [Client.list], [Client.get_accessible_endpoints]
    and [Client.health_check].

    The [grnhse] package (class [Harvest] and the accessor objects it hands
    out) is an external collaborator.  It is taken as an interface
    ([HarvestLib]) over an explicit world state, so that everything proved
    below holds for every implementation of the package; a small in-memory
    implementation ([Mock]) is used for concrete runs. *)

From Stdlib Require Import ZArith Ascii String.
From stdpp Require Import gmap strings list fin_maps pretty.

Local Open Scope string_scope.
Local Open Scope Z_scope.
Local Open Scope list_scope.

(** ** Python values, records and exceptions *)

(** The values that occur in keyword arguments and in record fields. *)
Inductive Value : Type :=
  | VInt (z : Z)
  | VStr (s : string)
  | VList (l : list string).

(** A keyword-argument mapping ([**params], [**kwargs]) and a record (a JSON
    object) are Python dicts with string keys. *)
Abbreviation Params := (gmap string Value).
Abbreviation Row := (gmap string Value).

(** Exceptions: [grnhse.exceptions.HTTPError] with its [str], and every other
    exception class (the builtins raised by the interpreter, or whatever else
    the library raises) with its class name and its [str]. *)
Inductive Exn : Type :=
  | HTTPError (msg : string)
  | PyError (cls : string) (msg : string).

Definition exn_str (e : Exn) : string :=
  match e with
  | HTTPError msg => msg
  | PyError _ msg => msg
  end.

Definition KeyError (key : string) : Exn :=
  PyError "KeyError" ("'" +:+ key +:+ "'").
Definition IndexError (what : string) : Exn :=
  PyError "IndexError" (what +:+ " index out of range").
Definition TypeError (msg : string) : Exn := PyError "TypeError" msg.

(** [DEFAULT_ITEMS_PER_PAGE = 100] *)
Definition DEFAULT_ITEMS_PER_PAGE : Z := 100.

(** ** Strings: [str.split(".")] and the [in] test on strings *)

(** [s.split(sep)] for a one-character separator: never the empty list. *)
Fixpoint split_on (sep : ascii) (s : string) : list string :=
  match s with
  | EmptyString => [EmptyString]
  | String c rest =>
      if Ascii.eqb c sep then EmptyString :: split_on sep rest
      else match split_on sep rest with
           | [] => [String c EmptyString]
           | part :: parts => String c part :: parts
           end
  end.

Definition dot : ascii := "."%char.

Fixpoint has_char (c : ascii) (s : string) : bool :=
  match s with
  | EmptyString => false
  | String c' rest => Ascii.eqb c' c || has_char c rest
  end.

(** [needle in hay] *)
Fixpoint contains (needle hay : string) : bool :=
  String.prefix needle hay ||
  match hay with
  | EmptyString => false
  | String _ rest => contains needle rest
  end.

Definition PERMISSION_PATTERN : string :=
  "This API Key does not have permission for this endpoint".

Definition NO_ENDPOINTS_MESSAGE : string :=
  "Your API Key does not have permission for any existing endpoints. Please grant read permissions for required streams/endpoints".

(** [name_parts[1:]] *)
Definition py_tail {A} (l : list A) : list A := drop 1 l.

(** [len(v)] *)
Definition py_len (v : Value) : Exn + nat :=
  match v with
  | VInt _ => inl (TypeError "object of type 'int' has no len()")
  | VStr s => inr (String.length s)
  | VList l => inr (List.length l)
  end.

(** [v[0]] *)
Definition py_first (v : Value) : Exn + string :=
  match v with
  | VInt _ => inl (TypeError "'int' object is not subscriptable")
  | VStr EmptyString => inl (IndexError "string")
  | VStr (String c _) => inr (String c EmptyString)
  | VList [] => inl (IndexError "list")
  | VList (x :: _) => inr x
  end.

(** [v[1:]] *)
Definition py_slice1 (v : Value) : Exn + Value :=
  match v with
  | VInt _ => inl (TypeError "'int' object is not subscriptable")
  | VStr EmptyString => inr (VStr EmptyString)
  | VStr (String _ rest) => inr (VStr rest)
  | VList l => inr (VList (py_tail l))
  end.

(** [d[key]] on a dict *)
Definition py_getitem (d : gmap string Value) (key : string) : Exn + Value :=
  match d !! key with
  | Some v => inr v
  | None => inl (KeyError key)
  end.

(** ** The interface of the [grnhse] package *)

(** Accessor objects are mutable (they hold the pagination cursor) and may
    share state, so every operation runs on one world state and returns the
    world it leaves behind, also when it raises.
    - [client_getattr name]           is [getattr(self._client, name)];
    - [acc_get a params]              is [a.get( **params)];
    - [acc_get_next a]                is [a.get_next()];
    - [acc_records_remaining a]       is the flag [a.records_remaining], a
                                      property: reading it leaves the world
                                      as it is;
    - [acc_call a params object_id]   is [a( **params, object_id=object_id)];
    - [acc_getattr a name]            is [getattr(a, name)]. *)
Class HarvestLib : Type := {
  World : Type;
  Accessor : Type;
  client_getattr : string -> World -> (Exn + Accessor) * World;
  acc_get : Accessor -> Params -> World -> (Exn + list Row) * World;
  acc_get_next : Accessor -> World -> (Exn + list Row) * World;
  acc_records_remaining : Accessor -> World -> bool;
  acc_call : Accessor -> Params -> Value -> World -> (Exn + Accessor) * World;
  acc_getattr : Accessor -> string -> World -> (Exn + Accessor) * World;
}.

Section Engine.
Context {L : HarvestLib}.

(** What the connector does to the outside, in order. *)
Inductive Event : Type :=
  | EClientGetAttr (name : string)
  | EGet (a : Accessor) (params : Params)
  | EGetNext (a : Accessor)
  | ECall (a : Accessor) (params : Params) (object_id : Value)
  | EGetAttr (a : Accessor) (name : string)
  | ELogWarn (entity : string) (msg : string)
  | ELogInfo (accessible : list string).

(** ** Generators as a monad

    A run of a generator that is consumed to its end: the records it
    yielded, the calls it made, how it ended and the world it left. *)
Inductive Outcome (A : Type) : Type :=
  | Return (a : A)
  | Raise (e : Exn)
  | OutOfFuel.
Arguments Return {A} a.
Arguments Raise {A} e.
Arguments OutOfFuel {A}.

Record Run (A : Type) : Type := mkRun {
  yielded : list Row;
  trace : list Event;
  outcome : Outcome A;
  final : World;
}.
Arguments mkRun {A} _ _ _ _.
Arguments yielded {A} _.
Arguments trace {A} _.
Arguments outcome {A} _.
Arguments final {A} _.

Definition Gen (A : Type) : Type := World -> Run A.

Definition ret {A} (a : A) : Gen A := fun w => mkRun [] [] (Return a) w.

Definition raise {A} (e : Exn) : Gen A := fun w => mkRun [] [] (Raise e) w.

Definition out_of_fuel {A} : Gen A := fun w => mkRun [] [] OutOfFuel w.

Definition bind {A B} (m : Gen A) (k : A -> Gen B) : Gen B := fun w =>
  let r := m w in
  match outcome r with
  | Return a =>
      let r' := k a (final r) in
      mkRun (yielded r ++ yielded r') (trace r ++ trace r') (outcome r') (final r')
  | Raise e => mkRun (yielded r) (trace r) (Raise e) (final r)
  | OutOfFuel => mkRun (yielded r) (trace r) OutOfFuel (final r)
  end.

(** [yield from rows] for a list *)
Definition yield_from (rows : list Row) : Gen unit := fun w =>
  mkRun rows [] (Return tt) w.

(** A call into the library, recorded in the trace whether it returns or
    raises. *)
Definition lib {A} (ev : Event) (f : World -> (Exn + A) * World) : Gen A := fun w =>
  let r := f w in
  mkRun [] [ev] (match r.1 with inl e => Raise e | inr a => Return a end) r.2.

(** A logger call. *)
Definition log (ev : Event) : Gen unit := fun w => mkRun [] [ev] (Return tt) w.

(** An interpreter operation that may raise. *)
Definition py {A} (r : Exn + A) : Gen A :=
  match r with inl e => raise e | inr a => ret a end.

(** [try: m except HTTPError as error: h (str error)]; the handler gets the
    error itself too, for [raise error]. *)
Definition try_except_HTTPError {A} (m : Gen A) (h : Exn -> string -> Gen A) : Gen A :=
  fun w =>
    let r := m w in
    match outcome r with
    | Raise (HTTPError msg) =>
        let r' := h (HTTPError msg) msg (final r) in
        mkRun (yielded r ++ yielded r') (trace r ++ trace r') (outcome r') (final r')
    | _ => r
    end.

Notation "x <- m ;; k" := (bind m (fun x => k))
  (at level 100, m at next level, right associativity).
Notation "m ;;; k" := (bind m (fun _ => k))
  (at level 100, right associativity).

(** [for x in xs: body x] *)
Fixpoint for_each {A} (xs : list A) (body : A -> Gen unit) : Gen unit :=
  match xs with
  | [] => ret tt
  | x :: xs' => body x ;;; for_each xs' body
  end.

(** ** [paginator] *)

(** [while request.records_remaining: rows = request.get_next(); yield from rows] *)
Fixpoint while_remaining (fuel : nat) (request : Accessor) : Gen unit := fun w =>
  if acc_records_remaining request w then
    match fuel with
    | O => out_of_fuel w
    | S fuel' =>
        (rows <- lib (EGetNext request) (acc_get_next request) ;;
         yield_from rows ;;;
         while_remaining fuel' request) w
    end
  else ret tt w.

(** The body of [for row in rows] in [paginator]:
    [yield from paginator(getattr(request( **params, object_id=row["id"]), nested_names[0]))],
    where [self] is [paginator] itself.  The arguments are evaluated left to
    right: [row["id"]], the call of [request], [nested_names[0]], [getattr]. *)
Definition descend (self : Accessor -> Params -> Gen unit)
    (request : Accessor) (params : Params) (nested_names : Value) (row : Row) : Gen unit :=
  object_id <- py (py_getitem row "id") ;;
  match params !! "object_id" with
  | Some _ => raise (TypeError "got multiple values for keyword argument 'object_id'")
  | None => ret tt
  end ;;;
  scoped <- lib (ECall request params object_id) (acc_call request params object_id) ;;
  rel <- py (py_first nested_names) ;;
  child <- lib (EGetAttr scoped rel) (acc_getattr scoped rel) ;;
  self child ∅.

(** [def paginator(request, **params)].  The fuel bounds the depth of the
    recursion and the number of turns of the [while] loop. *)
Fixpoint paginator (fuel : nat) (request : Accessor) (params : Params) : Gen unit :=
  match fuel with
  | O => out_of_fuel
  | S fuel' =>
      rows <- lib (EGet request params) (acc_get request params) ;;
      match params !! "nested_names" with
      | Some nested_names =>
          (* nested_names = params.pop("nested_names", None) *)
          let params1 := delete "nested_names" params in
          n <- py (py_len nested_names) ;;
          params2 <-
            (if (1 <? n)%nat then
               (* params["nested_names"] = params["nested_names"][1:] *)
               v <- py (py_getitem params1 "nested_names") ;;
               t <- py (py_slice1 v) ;;
               ret (<["nested_names" := t]> params1)
             else ret params1) ;;
          for_each rows (descend (paginator fuel') request params2 nested_names)
      | None => yield_from rows
      end ;;;
      while_remaining fuel' request
  end.

(** ** [Client] *)

Definition ENTITIES : list string :=
  [ "applications"; "candidates"; "close_reasons"; "degrees"; "departments";
    "job_posts"; "jobs"; "offers"; "scorecards"; "users"; "custom_fields";
    "demographics_question_sets"; "demographics_questions";
    "demographics_answer_options"; "demographics_answers";
    "applications.demographics_answers";
    "demographics_question_sets.questions";
    "demographics_answers.answer_options";
    "interviews"; "applications.interviews"; "sources"; "rejection_reasons";
    "jobs.openings"; "job_stages"; "jobs.stages" ].

(** [name_parts[0]]; [split] never returns the empty list. *)
Definition root_segment (name : string) : string :=
  match split_on dot name with
  | [] => EmptyString
  | root :: _ => root
  end.

(** The keyword arguments that [Client.list] hands to [paginator]. *)
Definition list_params (name : string) (kwargs : Params) : Params :=
  let nested_names := py_tail (split_on dot name) in
  let kwargs1 := <["per_page" := VInt DEFAULT_ITEMS_PER_PAGE]> kwargs in
  match nested_names with
  | [] => kwargs1
  | _ :: _ => <["nested_names" := VList nested_names]> kwargs1
  end.

(** [def list(self, name, **kwargs)] *)
Definition list_ (fuel : nat) (name : string) (kwargs : Params) : Gen unit :=
  let params := list_params name kwargs in
  request <- lib (EClientGetAttr (root_segment name))
                 (client_getattr (root_segment name)) ;;
  match params !! "request" with
  | Some _ => raise (TypeError "paginator() got multiple values for argument 'request'")
  | None => ret tt
  end ;;;
  paginator fuel request params.

(** The body of the [try] in [get_accessible_endpoints]:
    [getattr(self._client, entity).get()]. *)
Definition probe (entity : string) : Gen unit :=
  a <- lib (EClientGetAttr entity) (client_getattr entity) ;;
  _ <- lib (EGet a ∅) (acc_get a ∅) ;;
  ret tt.

(** One turn of the [for entity in self.ENTITIES] loop, on the list
    [accessible_endpoints] built so far. *)
Definition probe_step (accessible : list string) (entity : string) : Gen (list string) :=
  try_except_HTTPError
    (probe entity ;;; ret (accessible ++ [entity]))
    (fun error msg =>
       log (ELogWarn entity msg) ;;;
       if contains PERMISSION_PATTERN msg then ret accessible else raise error).

Fixpoint probe_loop (entities : list string) (accessible : list string) : Gen (list string) :=
  match entities with
  | [] => ret accessible
  | entity :: rest =>
      accessible' <- probe_step accessible entity ;;
      probe_loop rest accessible'
  end.

(** [def get_accessible_endpoints(self)] *)
Definition get_accessible_endpoints : Gen (list string) :=
  accessible_endpoints <- probe_loop ENTITIES [] ;;
  log (ELogInfo accessible_endpoints) ;;;
  ret accessible_endpoints.

(** [def health_check(self)] *)
Definition health_check : Gen (bool * option string) :=
  try_except_HTTPError
    (accessible_endpoints <- get_accessible_endpoints ;;
     match accessible_endpoints with
     | [] => ret (false, Some NO_ENDPOINTS_MESSAGE)
     | _ :: _ => ret (true, None)
     end)
    (fun _ msg => ret (false, Some msg)).

End Engine.

Arguments Return {A} a.
Arguments Raise {A} e.
Arguments OutOfFuel {A}.
Arguments mkRun {L A} _ _ _ _.
Arguments yielded {L A} _.
Arguments trace {L A} _.
Arguments outcome {L A} _.
Arguments final {L A} _.

(** ** What the library serves

    These relations describe the library alone, without the engine. *)
Section Served.
Context {L : HarvestLib}.

(** From world [w], accessor [a] keeps its flag up for exactly the pages [ps],
    one [get_next] each, and then lowers it, in world [w']. *)
Inductive drains (a : Accessor) : World -> list (list Row) -> World -> Prop :=
  | drains_stop w :
      acc_records_remaining a w = false ->
      drains a w [] w
  | drains_more w rows w' ps w'' :
      acc_records_remaining a w = true ->
      acc_get_next a w = (inr rows, w') ->
      drains a w' ps w'' ->
      drains a w (rows :: ps) w''.

(** From world [w], [a.get( **params)] and the following [get_next]s serve the
    pages [pages] (the first page and the further ones). *)
Inductive serves (a : Accessor) (params : Params) : World -> list (list Row) -> World -> Prop :=
  | serves_pages w first w1 ps w2 :
      acc_get a params w = (inr first, w1) ->
      drains a w1 ps w2 ->
      serves a params w (first :: ps) w2.

(** For the parent records [rows] in turn, from world [w]: scoping [request]
    to the record's [id], taking the relation [rel] of the result and reading
    that child accessor to its end serves the pages [kids] (one list of pages
    per parent record). *)
Inductive descends (request : Accessor) (params : Params) (rel : string) :
    list Row -> World -> list (list (list Row)) -> World -> Prop :=
  | descends_nil w :
      descends request params rel [] w [] w
  | descends_cons row rows object_id scoped child pages kids w w1 w2 w3 w4 :
      row !! "id" = Some object_id ->
      acc_call request params object_id w = (inr scoped, w1) ->
      acc_getattr scoped rel w1 = (inr child, w2) ->
      serves child ∅ w2 pages w3 ->
      descends request params rel rows w3 kids w4 ->
      descends request params rel (row :: rows) w (pages :: kids) w4.

(** The same three, as functions: [None] when a call raises, a record has no
    [id], or the flag is still up after [fuel] pages. *)
Fixpoint drain_pages (fuel : nat) (a : Accessor) (w : World) :
    option (list (list Row) * World) :=
  if acc_records_remaining a w then
    match fuel with
    | O => None
    | S fuel' =>
        match acc_get_next a w with
        | (inr rows, w') =>
            match drain_pages fuel' a w' with
            | Some (ps, w'') => Some (rows :: ps, w'')
            | None => None
            end
        | (inl _, _) => None
        end
    end
  else Some ([], w).

Definition serve_pages (fuel : nat) (a : Accessor) (params : Params) (w : World) :
    option (list (list Row) * World) :=
  match acc_get a params w with
  | (inr first, w1) =>
      match drain_pages fuel a w1 with
      | Some (ps, w2) => Some (first :: ps, w2)
      | None => None
      end
  | (inl _, _) => None
  end.

Fixpoint descend_pages (fuel : nat) (request : Accessor) (params : Params)
    (rel : string) (rows : list Row) (w : World) :
    option (list (list (list Row)) * World) :=
  match rows with
  | [] => Some ([], w)
  | row :: rows' =>
      match row !! "id" with
      | None => None
      | Some object_id =>
          match acc_call request params object_id w with
          | (inr scoped, w1) =>
              match acc_getattr scoped rel w1 with
              | (inr child, w2) =>
                  match serve_pages fuel child ∅ w2 with
                  | Some (pages, w3) =>
                      match descend_pages fuel request params rel rows' w3 with
                      | Some (kids, w4) => Some (pages :: kids, w4)
                      | None => None
                      end
                  | None => None
                  end
              | (inl _, _) => None
              end
          | (inl _, _) => None
          end
      end
  end.

(** All records of a list of pages, in page order. *)
Definition records (pages : list (list Row)) : list Row := concat pages.

End Served.

(** ** The shape of the requests

    The claims on page size, as predicates on a trace. *)
Section Requests.
Context {L : HarvestLib}.

Definition carries_page_size (params : Params) : Prop :=
  params !! "per_page" = Some (VInt DEFAULT_ITEMS_PER_PAGE).


(** What follows the first request to the root accessor: first-page requests
    without any parameter, and scoping calls that carry [per_page = 100] and
    no [nested_names]. *)
Definition after_root (ev : Event) : Prop :=
  match ev with
  | EGet _ params => params = ∅
  | ECall _ params _ => carries_page_size params /\ params !! "nested_names" = None
  | _ => True
  end.

(** The [logger.warn] of the [except] clause, which only an [HTTPError]
    reaches. *)
Definition warning (entity : string) (e : Exn) : list Event :=
  match e with
  | HTTPError msg => [ELogWarn entity msg]
  | PyError _ _ => []
  end.

(** The probe of [entity] in world [w] succeeds. *)
Definition admits (entity : string) (w : World) : Prop :=
  outcome (probe entity w) = Return tt.

(** The probe of [entity] in world [w] raises the permission-denied error. *)
Definition denies (entity : string) (w : World) : Prop :=
  exists msg,
    outcome (probe entity w) = Raise (HTTPError msg) /\
    contains PERMISSION_PATTERN msg = true.

End Requests.

(** ** An in-memory implementation of the library

    Accessors are paths.  A collection is a list of pages; the world keeps,
    for every accessor that was read, the pages not served yet. *)
Module Mock.

Record Config : Type := {
  resolve : string -> Exn + string;
  content : string -> Exn + list (list Row);
}.

Definition id_str (v : Value) : string :=
  match v with
  | VInt z => pretty z
  | VStr s => s
  | VList l => String.concat "," l
  end.

Definition get (c : Config) (a : string) (params : Params)
    (w : gmap string (list (list Row))) : (Exn + list Row) * gmap string (list (list Row)) :=
  match content c a with
  | inl e => (inl e, w)
  | inr [] => (inr [], <[a := []]> w)
  | inr (page :: pages) => (inr page, <[a := pages]> w)
  end.

Definition get_next (a : string)
    (w : gmap string (list (list Row))) : (Exn + list Row) * gmap string (list (list Row)) :=
  match w !! a with
  | Some (page :: pages) => (inr page, <[a := pages]> w)
  | _ => (inl (PyError "InvalidAPICallError" "no next page"), w)
  end.

Definition records_remaining (a : string) (w : gmap string (list (list Row))) : bool :=
  match w !! a with
  | Some (_ :: _) => true
  | _ => false
  end.

Definition library (c : Config) : HarvestLib := {|
  World := gmap string (list (list Row));
  Accessor := string;
  client_getattr name w := (resolve c name, w);
  acc_get := get c;
  acc_get_next := get_next;
  acc_records_remaining := records_remaining;
  acc_call a params object_id w := (inr (a +:+ "/" +:+ id_str object_id), w);
  acc_getattr a name w := (inr (a +:+ "/" +:+ name), w);
|}.

(** A record with an [id] and a [name]. *)
Definition row (id : Z) (name : string) : Row :=
  <["id" := VInt id]> (<["name" := VStr name]> ∅).

(** The collections of a small site: three pages of jobs; two pages of
    applications, where applications 1 and 2 have two interviews each; one
    page of two question sets with two questions each. *)
Definition jobs_pages : list (list Row) :=
  [[row 1 "j1"; row 2 "j2"]; [row 3 "j3"]; [row 4 "j4"]].
Definition applications_pages : list (list Row) :=
  [[row 1 "a1"; row 2 "a2"]; [row 3 "a3"]].
Definition question_sets_pages : list (list Row) :=
  [[row 1 "s1"; row 2 "s2"]].

Definition site_content (a : string) : Exn + list (list Row) :=
  if String.eqb a "jobs" then inr jobs_pages
  else if String.eqb a "applications" then inr applications_pages
  else if String.eqb a "applications/1/interviews" then inr [[row 11 "i11"]; [row 12 "i12"]]
  else if String.eqb a "applications/2/interviews" then inr [[row 21 "i21"; row 22 "i22"]]
  else if String.eqb a "demographics_question_sets" then inr question_sets_pages
  else if String.eqb a "demographics_question_sets/1/questions"
       then inr [[row 11 "q11"]; [row 12 "q12"]]
  else if String.eqb a "demographics_question_sets/2/questions"
       then inr [[row 21 "q21"; row 22 "q22"]]
  else if String.eqb a "candidates" then inl (HTTPError "500 Server Error")
  else inr [].

(** A client that hands out an accessor for every name. *)
Definition site : Config := {|
  resolve name := inr name;
  content := site_content;
|}.

(** A client that knows no attribute with a dot in its name, on a site where
    every collection is empty and readable. *)
Definition strict : Config := {|
  resolve name :=
    if has_char dot name then inl (PyError "AttributeError" name) else inr name;
  content _ := inr [];
|}.

(** A key without permission for four of the endpoints. *)
Definition forbidden (entity : string) : bool :=
  String.eqb entity "candidates" || String.eqb entity "offers" ||
  String.eqb entity "users" || String.eqb entity "applications.interviews".

Definition denial : string :=
  "403 Client Error: This API Key does not have permission for this endpoint".

Definition restricted : Config := {|
  resolve name := inr name;
  content a := if forbidden a then inl (HTTPError denial) else inr [];
|}.

(** The children that [site] serves for applications 1 and 2. *)
Definition interviews_pages : list (list (list Row)) :=
  [[[row 11 "i11"]; [row 12 "i12"]]; [[row 21 "i21"; row 22 "i22"]]].

(** The children that [site] serves for the two question sets. *)
Definition questions_pages : list (list (list Row)) :=
  [[[row 11 "q11"]; [row 12 "q12"]]; [[row 21 "q21"; row 22 "q22"]]].

End Mock.


(** ** The rest of [Client] *)

(** A stream descriptor of the framework ([airbyte_protocol.AirbyteStream]):
    its name and its JSON schema, the latter kept as text. *)
Record AirbyteStream : Type := {
  name : string;
  json_schema : string;
}.

Section Rest.
Context {L : HarvestLib}.

Notation "x <- m ;; k" := (bind m (fun x => k))
  (at level 100, m at next level, right associativity).
Notation "m ;;; k" := (bind m (fun _ => k))
  (at level 100, right associativity).

(** [x in l] for a list of strings *)
Definition py_in (x : string) (l : list string) : bool :=
  existsb (String.eqb x) l.

(** The property [streams].  [declared] is what [super().streams] of the
    framework gives; the generator is consumed to its end and the streams it
    yields are returned as a list. *)
Definition streams (declared : list AirbyteStream) : Gen (list AirbyteStream) :=
  accessible_endpoints <- get_accessible_endpoints ;;
  ret (List.filter (fun stream => py_in (name stream) accessible_endpoints) declared).

(** [partial(self.list, name=entity)] called with keyword arguments: a
    keyword [name] of the call replaces the bound one, and [list] then calls
    [name.split]. *)
Definition bound_list (entity : string) (fuel : nat) (kwargs : Params) : Gen unit :=
  match kwargs !! "name" with
  | None => list_ fuel entity kwargs
  | Some (VStr name) => list_ fuel name (delete "name" kwargs)
  | Some (VInt _) =>
      raise (PyError "AttributeError" "'int' object has no attribute 'split'")
  | Some (VList _) =>
      raise (PyError "AttributeError" "'list' object has no attribute 'split'")
  end.

(** [def _enumerate_methods(self)]: the dict comprehension inserts the
    entities in catalog order. *)
Definition _enumerate_methods : gmap string (nat -> Params -> Gen unit) :=
  foldl (fun methods entity => <[entity := bound_list entity]> methods) ∅ ENTITIES.

(** The object ids of the scoping calls of a trace, the names asked of the
    client, and the entities warned about, each in order. *)
Definition scoped_ids (tr : list Event) : list Value :=
  omap (fun ev => match ev with ECall _ _ object_id => Some object_id | _ => None end) tr.

Definition probed (tr : list Event) : list string :=
  omap (fun ev => match ev with EClientGetAttr name => Some name | _ => None end) tr.

Definition warned (tr : list Event) : list string :=
  omap (fun ev => match ev with ELogWarn entity _ => Some entity | _ => None end) tr.

(** From world [w], accessor [a] keeps its flag up and serves the pages [ps],
    and the [get_next] after them raises [e], in world [w']. *)
Inductive drains_until (a : Accessor) : World -> list (list Row) -> Exn -> World -> Prop :=
  | drains_until_fail w e w' :
      acc_records_remaining a w = true ->
      acc_get_next a w = (inl e, w') ->
      drains_until a w [] e w'
  | drains_until_more w rows w' ps e w'' :
      acc_records_remaining a w = true ->
      acc_get_next a w = (inr rows, w') ->
      drains_until a w' ps e w'' ->
      drains_until a w (rows :: ps) e w''.

(** The same as a function. *)
Fixpoint drain_until (fuel : nat) (a : Accessor) (w : World) :
    option (list (list Row) * Exn * World) :=
  match fuel with
  | O => None
  | S fuel' =>
      if acc_records_remaining a w then
        match acc_get_next a w with
        | (inl e, w') => Some ([], e, w')
        | (inr rows, w') =>
            match drain_until fuel' a w' with
            | Some (ps, e, w'') => Some (rows :: ps, e, w'')
            | None => None
            end
        end
      else None
  end.

End Rest.

(** The answer of [health_check] by the way [get_accessible_endpoints]
    ended. *)
Definition health_check_answer (o : Outcome (list string)) : Outcome (bool * option string) :=
  match o with
  | Return [] => Return (false, Some NO_ENDPOINTS_MESSAGE)
  | Return (_ :: _) => Return (true, None)
  | Raise (HTTPError msg) => Return (false, Some msg)
  | Raise (PyError cls msg) => Raise (PyError cls msg)
  | OutOfFuel => OutOfFuel
  end.

(** ** [HarvestClient]

    The constructor extends the URI tables that [Harvest.__init__] leaves in
    [self._uris]: under ["direct"], the endpoints by name; under
    ["related"], by parent name, the relations by name.  An endpoint is a
    mapping from an action (["list"], ["retrieve"]) to a URI template. *)
Record Uris : Type := {
  direct : gmap string (gmap string string);
  related : gmap string (gmap string (gmap string string));
}.

(** [{"list": l, "retrieve": r}] and [{"list": l}] *)
Definition list_retrieve (l r : string) : gmap string string :=
  <["retrieve" := r]> (<["list" := l]> ∅).
Definition list_only (l : string) : gmap string string :=
  <["list" := l]> ∅.

(** [self._uris["direct"] = { **self._uris["direct"], ... }] *)
Definition extend_direct (d : gmap string (gmap string string)) :
    gmap string (gmap string string) :=
  <["demographics_answers" :=
      list_retrieve "demographics/answers" "demographics/answers/{id}"]>
  (<["demographics_answer_options" :=
      list_retrieve "demographics/answer_options" "demographics/answer_options/{id}"]>
  (<["demographics_questions" := list_only "demographics/questions"]>
  (<["demographics_question_sets" :=
      list_retrieve "demographics/question_sets" "demographics/question_sets/{id}"]> d))).

(** [self._uris["related"] = { **self._uris["related"], ... }] *)
Definition extend_related (r : gmap string (gmap string (gmap string string))) :
    gmap string (gmap string (gmap string string)) :=
  <["demographics_answers" :=
      <["answer_options" := list_only "demographics/questions/{rel_id}/answer_options"]> ∅]>
  (<["demographics_question_sets" :=
      <["questions" :=
          list_retrieve "demographics/question_sets/{rel_id}/questions"
                        "demographics/question_sets/{rel_id}/questions/{{id}}"]> ∅]> r).

(** [HarvestClient.__init__], after [super().__init__]: the three
    assignments in order, on the tables as state.  The second one reads
    [self._uris["related"]["applications"]] and raises [KeyError] when the
    base tables have no such parent; the first assignment is done by then. *)
Definition HarvestClient_init (uris : Uris) : (Exn + unit) * Uris :=
  let uris1 := {| direct := extend_direct (direct uris); related := related uris |} in
  match related uris1 !! "applications" with
  | None => (inl (KeyError "applications"), uris1)
  | Some relations =>
      let relations' :=
        <["demographics_answers" :=
            list_only "applications/{rel_id}/demographics/answers"]> relations in
      let uris2 := {| direct := direct uris1;
                      related := <["applications" := relations']> (related uris1) |} in
      (inr tt, {| direct := direct uris2; related := extend_related (related uris2) |})
  end.

(** An entity name resolves in the tables when its root segment is a direct
    endpoint with a ["list"] URI and every further segment is a relation,
    with a ["list"] URI, of the segment before it. *)
Definition has_list (endpoint : option (gmap string string)) : bool :=
  match endpoint with
  | Some actions => bool_decide (is_Some (actions !! "list"))
  | None => false
  end.

Fixpoint relations_resolve (uris : Uris) (parent : string) (chain : list string) : bool :=
  match chain with
  | [] => true
  | rel :: chain' =>
      has_list (related uris !! parent ≫= fun relations => relations !! rel)
      && relations_resolve uris rel chain'
  end.

Definition resolves (uris : Uris) (entity : string) : bool :=
  has_list (direct uris !! root_segment entity)
  && relations_resolve uris (root_segment entity) (py_tail (split_on dot entity)).

(** The entities that the constructor registers itself, and the rest of the
    catalog. *)
Definition is_demographics (entity : string) : bool :=
  String.prefix "demographics" entity
  || String.eqb entity "applications.demographics_answers".

(** ** Further in-memory libraries *)

(** A library whose accessors answer by a script: the first answer is for
    [get], the next ones for [get_next]; the flag is up while answers are
    left. *)
Module Scripted.

Definition get (script : string -> list (Exn + list Row)) (a : string) (params : Params)
    (w : gmap string (list (Exn + list Row))) :
    (Exn + list Row) * gmap string (list (Exn + list Row)) :=
  match script a with
  | [] => (inr [], <[a := []]> w)
  | answer :: answers => (answer, <[a := answers]> w)
  end.

Definition get_next (a : string) (w : gmap string (list (Exn + list Row))) :
    (Exn + list Row) * gmap string (list (Exn + list Row)) :=
  match w !! a with
  | Some (answer :: answers) => (answer, <[a := answers]> w)
  | _ => (inl (PyError "InvalidAPICallError" "no next page"), w)
  end.

Definition records_remaining (a : string) (w : gmap string (list (Exn + list Row))) : bool :=
  match w !! a with
  | Some (_ :: _) => true
  | _ => false
  end.

Definition library (script : string -> list (Exn + list Row)) : HarvestLib := {|
  World := gmap string (list (Exn + list Row));
  Accessor := string;
  client_getattr name w :=
    (if String.eqb name "missing" then inl (PyError "AttributeError" name) else inr name, w);
  acc_get := get script;
  acc_get_next := get_next;
  acc_records_remaining := records_remaining;
  acc_call a params object_id w := (inr (a +:+ "/" +:+ Mock.id_str object_id), w);
  acc_getattr a name w := (inr (a +:+ "/" +:+ name), w);
|}.

(** Jobs: two pages, then a server error.  Offers: a server error at once.
    Applications: one page whose second record has no [id]. *)
Definition outage (a : string) : list (Exn + list Row) :=
  if String.eqb a "jobs"
  then [inr [Mock.row 1 "j1"; Mock.row 2 "j2"]; inr [Mock.row 3 "j3"];
        inl (HTTPError "502 Bad Gateway")]
  else if String.eqb a "offers" then [inl (HTTPError "502 Bad Gateway")]
  else if String.eqb a "applications"
  then [inr [Mock.row 1 "a1"; <["name" := VStr "a2"]> ∅; Mock.row 3 "a3"]]
  else if String.eqb a "applications/1/interviews" then [inr [Mock.row 11 "i11"]]
  else [].

End Scripted.

(** A library whose accessors never lower the flag. *)
Module Endless.

Definition library : HarvestLib := {|
  World := nat;
  Accessor := string;
  client_getattr name w := (inr name, w);
  acc_get a params w := (inr [], w);
  acc_get_next a w := (inr [Mock.row (Z.of_nat w) "again"], S w);
  acc_records_remaining a w := true;
  acc_call a params object_id w := (inr a, w);
  acc_getattr a name w := (inr a, w);
|}.

End Endless.

(** Stream descriptors as the framework could declare them, and URI tables
    as the base library could leave them. *)
Module Samples.

Definition declared : list AirbyteStream :=
  [ {| name := "users"; json_schema := "{}" |};
    {| name := "jobs"; json_schema := "{}" |};
    {| name := "applications.interviews"; json_schema := "{}" |};
    {| name := "applications"; json_schema := "{}" |};
    {| name := "unknown"; json_schema := "{}" |} ].

Definition base_uris : Uris := {|
  direct :=
    <["applications" := list_retrieve "applications" "applications/{id}"]>
    (<["jobs" := list_retrieve "jobs" "jobs/{id}"]> ∅);
  related :=
    <["applications" :=
        <["interviews" := list_only "applications/{rel_id}/scheduled_interviews"]> ∅]> ∅;
|}.

(** Tables with every endpoint and relation of the catalog that is the base
    library's own. *)
Definition base_names : list string :=
  ["applications"; "candidates"; "close_reasons"; "degrees"; "departments";
   "job_posts"; "jobs"; "offers"; "scorecards"; "users"; "custom_fields";
   "interviews"; "sources"; "rejection_reasons"; "job_stages"].

Definition full_uris : Uris := {|
  direct :=
    foldr (fun endpoint d => <[endpoint := list_retrieve endpoint (endpoint +:+ "/{id}")]> d)
          ∅ base_names;
  related :=
    <["applications" :=
        <["interviews" := list_only "applications/{rel_id}/scheduled_interviews"]> ∅]>
    (<["jobs" :=
        <["openings" := list_only "jobs/{rel_id}/openings"]>
        (<["stages" := list_only "jobs/{rel_id}/stages"]> ∅)]> ∅);
|}.

(** The tables that the constructor leaves from the small base tables. *)
Definition extended_base_uris : Uris :=
  (HarvestClient_init base_uris).2.

Definition bare_uris : Uris := {|
  direct := <["jobs" := list_retrieve "jobs" "jobs/{id}"]> ∅;
  related := ∅;
|}.

End Samples.

(** * Properties *)

(** ** Strings *)

Lemma split_on_no_sep (sep : ascii) (s : string) :
  has_char sep s = false -> split_on sep s = [s].
Proof.
  induction s as [|c rest IH]; simpl; [reflexivity|].
  intros H. apply orb_false_iff in H as [Hc Hrest].
  rewrite Hc, (IH Hrest). reflexivity.
Qed.

Lemma split_on_sep_parts (sep : ascii) (s : string) :
  has_char sep s = true -> (2 <= List.length (split_on sep s))%nat.
Proof.
  induction s as [|c rest IH]; simpl; [discriminate|].
  destruct (Ascii.eqb c sep); simpl.
  - intros _. destruct rest; simpl; [lia|].
    destruct (Ascii.eqb _ _); simpl; [lia|].
    destruct (split_on sep rest); simpl; lia.
  - intros H. specialize (IH H).
    destruct (split_on sep rest); simpl in *; lia.
Qed.

Lemma split_on_head_no_sep (sep : ascii) (s : string) :
  match split_on sep s with
  | [] => False
  | part :: _ => has_char sep part = false
  end.
Proof.
  induction s as [|c rest IH]; simpl; [reflexivity|].
  destruct (Ascii.eqb c sep) eqn:Hc; [reflexivity|].
  destruct (split_on sep rest) as [|part parts]; simpl; [by rewrite Hc|].
  by rewrite Hc, IH.
Qed.


Lemma root_segment_simple (name : string) :
  has_char dot name = false -> root_segment name = name.
Proof. intros H. unfold root_segment. rewrite (split_on_no_sep _ _ H). reflexivity. Qed.

(** After [params.pop("nested_names")] the key is gone, so the subscript
    [params["nested_names"]] raises. *)
Lemma getitem_after_pop (params : Params) :
  py_getitem (delete "nested_names" params) "nested_names" = inl (KeyError "nested_names").
Proof. unfold py_getitem. rewrite lookup_delete_eq. reflexivity. Qed.

Section Properties.
Context {L : HarvestLib}.

Notation "x <- m ;; k" := (bind m (fun x => k))
  (at level 100, m at next level, right associativity).
Notation "m ;;; k" := (bind m (fun _ => k))
  (at level 100, right associativity).

(** ** Runs of the monad *)

Lemma bind_Return {A B} (m : Gen A) (k : A -> Gen B) w ys tr a w1 ys' tr' o w2 :
  m w = mkRun ys tr (Return a) w1 ->
  k a w1 = mkRun ys' tr' o w2 ->
  bind m k w = mkRun (ys ++ ys') (tr ++ tr') o w2.
Proof. intros Hm Hk. unfold bind. rewrite Hm. simpl. rewrite Hk. reflexivity. Qed.

(** When the first part yields nothing. *)
Lemma bind_silent {A B} (m : Gen A) (k : A -> Gen B) w tr a w1 ys tr' o w2 :
  m w = mkRun [] tr (Return a) w1 ->
  k a w1 = mkRun ys tr' o w2 ->
  bind m k w = mkRun ys (tr ++ tr') o w2.
Proof. intros Hm Hk. apply (bind_Return m k w [] tr a w1 ys tr' o w2 Hm Hk). Qed.

Lemma bind_Raise {A B} (m : Gen A) (k : A -> Gen B) w ys tr e w1 :
  m w = mkRun ys tr (Raise e) w1 ->
  bind m k w = mkRun ys tr (Raise e) w1.
Proof. intros Hm. unfold bind. rewrite Hm. reflexivity. Qed.

Lemma lib_Return {A} (ev : Event) (f : World -> (Exn + A) * World) w a w' :
  f w = (inr a, w') -> lib ev f w = mkRun [] [ev] (Return a) w'.
Proof. intros H. unfold lib. rewrite H. reflexivity. Qed.

Lemma lib_Raise {A} (ev : Event) (f : World -> (Exn + A) * World) w e w' :
  f w = (inl e, w') -> lib (A := A) ev f w = mkRun [] [ev] (Raise e) w'.
Proof. intros H. unfold lib. rewrite H. reflexivity. Qed.

Lemma trace_bind {A B} (m : Gen A) (k : A -> Gen B) w :
  trace (bind m k w) =
  trace (m w) ++ match outcome (m w) with
                 | Return a => trace (k a (final (m w)))
                 | _ => []
                 end.
Proof. unfold bind. destruct (outcome (m w)); simpl; rewrite ?app_nil_r; reflexivity. Qed.

Lemma Forall_trace_bind {A B} (P : Event -> Prop) (m : Gen A) (k : A -> Gen B) w :
  Forall P (trace (m w)) ->
  (forall a w', Forall P (trace (k a w'))) ->
  Forall P (trace (bind m k w)).
Proof.
  intros Hm Hk. rewrite trace_bind. apply Forall_app. split; [exact Hm|].
  destruct (outcome (m w)); auto.
Qed.

Lemma outcome_bind {A B} (m : Gen A) (k : A -> Gen B) w :
  outcome (bind m k w) =
  match outcome (m w) with
  | Return a => outcome (k a (final (m w)))
  | Raise e => Raise e
  | OutOfFuel => OutOfFuel
  end.
Proof. unfold bind. destruct (outcome (m w)); reflexivity. Qed.

Lemma outcome_try_except {A} (m : Gen A) (h : Exn -> string -> Gen A) w :
  outcome (try_except_HTTPError m h w) =
  match outcome (m w) with
  | Raise (HTTPError msg) => outcome (h (HTTPError msg) msg (final (m w)))
  | o => o
  end.
Proof.
  unfold try_except_HTTPError.
  destruct (outcome (m w)) as [a|[msg|cls msg]|] eqn:Hm; simpl; try exact Hm.
  reflexivity.
Qed.

Lemma trace_py {A} (r : Exn + A) w : trace (py r w) = [].
Proof. destruct r; reflexivity. Qed.

(** ** The functions compute the relations *)

Lemma drain_pages_drains (fuel : nat) (a : Accessor) w ps w' :
  drain_pages fuel a w = Some (ps, w') -> drains a w ps w'.
Proof.
  revert w ps w'. induction fuel as [|fuel IH]; intros w ps w'; simpl;
    destruct (acc_records_remaining a w) eqn:Hflag; try discriminate;
    try (intros [= <- <-]; by apply drains_stop).
  destruct (acc_get_next a w) as [[e|rows] w1] eqn:Hnext; [discriminate|].
  destruct (drain_pages fuel a w1) as [[ps1 w2]|] eqn:Hrest; [|discriminate].
  intros [= <- <-]. eapply drains_more; eauto.
Qed.

Lemma serve_pages_serves (fuel : nat) (a : Accessor) (params : Params) w pages w' :
  serve_pages fuel a params w = Some (pages, w') -> serves a params w pages w'.
Proof.
  unfold serve_pages.
  destruct (acc_get a params w) as [[e|first] w1] eqn:Hget; [discriminate|].
  destruct (drain_pages fuel a w1) as [[ps w2]|] eqn:Hdrain; [|discriminate].
  intros [= <- <-]. eapply serves_pages; eauto using drain_pages_drains.
Qed.

Lemma descend_pages_descends (fuel : nat) (request : Accessor) (params : Params)
    (rel : string) rows w kids w' :
  descend_pages fuel request params rel rows w = Some (kids, w') ->
  descends request params rel rows w kids w'.
Proof.
  revert w kids w'. induction rows as [|row rows IH]; intros w kids w'; simpl.
  - intros [= <- <-]. apply descends_nil.
  - destruct (row !! "id") as [object_id|] eqn:Hid; [|discriminate].
    destruct (acc_call request params object_id w) as [[e|scoped] w1] eqn:Hcall;
      [discriminate|].
    destruct (acc_getattr scoped rel w1) as [[e|child] w2] eqn:Hattr; [discriminate|].
    destruct (serve_pages fuel child ∅ w2) as [[pages w3]|] eqn:Hserve; [|discriminate].
    destruct (descend_pages fuel request params rel rows w3) as [[kids1 w4]|] eqn:Hrest;
      [|discriminate].
    intros [= <- <-].
    eapply descends_cons; eauto using serve_pages_serves.
Qed.

(** ** The [while] loop *)

(** The loop calls [get_next] once per page served while the flag is up, and
    yields those pages in order. *)
Lemma while_remaining_drains (a : Accessor) w ps w' :
  drains a w ps w' ->
  forall fuel, (List.length ps <= fuel)%nat ->
  while_remaining fuel a w =
  mkRun (records ps) (replicate (List.length ps) (EGetNext a)) (Return tt) w'.
Proof.
  induction 1 as [w Hflag | w rows w1 ps w2 Hflag Hnext _ IH]; intros fuel Hfuel.
  - destruct fuel; simpl; rewrite Hflag; reflexivity.
  - destruct fuel as [|fuel]; simpl in Hfuel; [lia|].
    simpl. rewrite Hflag.
    erewrite bind_Return; [| apply lib_Return; exact Hnext |].
    2:{ erewrite bind_Return; [reflexivity | reflexivity |].
        apply IH. lia. }
    reflexivity.
Qed.

Lemma while_remaining_trace (fuel : nat) (a : Accessor) w :
  Forall (fun ev => ev = EGetNext a) (trace (while_remaining fuel a w)).
Proof.
  revert w. induction fuel as [|fuel IH]; intros w; simpl;
    destruct (acc_records_remaining a w); simpl; try constructor.
  apply Forall_trace_bind.
  - unfold lib. simpl. repeat constructor.
  - intros rows w'. apply Forall_trace_bind; [constructor|].
    intros _ w''. apply IH.
Qed.

(** ** [paginator] without nested names *)

Lemma paginator_flat (fuel : nat) (a : Accessor) (params : Params) w pages w' :
  params !! "nested_names" = None ->
  serves a params w pages w' ->
  (List.length pages <= fuel)%nat ->
  paginator fuel a params w =
  mkRun (records pages)
        (EGet a params :: replicate (List.length pages - 1) (EGetNext a))
        (Return tt) w'.
Proof.
  intros Hflat Hserves Hfuel.
  destruct Hserves as [w first w1 ps w2 Hget Hdrain].
  destruct fuel as [|fuel]; simpl in Hfuel; [lia|].
  simpl. rewrite Hflat.
  erewrite bind_Return; [| apply lib_Return; exact Hget |].
  2:{ erewrite bind_Return; [reflexivity | reflexivity |].
      apply (while_remaining_drains _ _ _ _ Hdrain). lia. }
  simpl. rewrite Nat.sub_0_r. reflexivity.
Qed.

(** ** [Client.list] on a simple name *)

Lemma list_params_simple (name : string) (kwargs : Params) :
  has_char dot name = false ->
  list_params name kwargs = <["per_page" := VInt DEFAULT_ITEMS_PER_PAGE]> kwargs.
Proof. intros H. unfold list_params. rewrite (split_on_no_sep _ _ H). reflexivity. Qed.

Lemma list_params_request (name : string) (kwargs : Params) :
  kwargs !! "request" = None -> list_params name kwargs !! "request" = None.
Proof.
  intros H. unfold list_params.
  destruct (py_tail (split_on dot name)); rewrite ?lookup_insert_ne by discriminate; exact H.
Qed.

Lemma list_params_per_page (name : string) (kwargs : Params) :
  list_params name kwargs !! "per_page" = Some (VInt DEFAULT_ITEMS_PER_PAGE).
Proof.
  unfold list_params.
  destruct (py_tail (split_on dot name)); rewrite ?lookup_insert_ne by discriminate;
    apply lookup_insert_eq.
Qed.

(** How [list] starts when the root accessor resolves. *)
Lemma list_unfold (fuel : nat) (name : string) (kwargs : Params) w request w0 :
  kwargs !! "request" = None ->
  client_getattr (root_segment name) w = (inr request, w0) ->
  list_ fuel name kwargs w =
  let r := paginator fuel request (list_params name kwargs) w0 in
  mkRun (yielded r) (EClientGetAttr (root_segment name) :: trace r) (outcome r) (final r).
Proof.
  intros Hreq Hroot. unfold list_.
  unfold bind at 1. rewrite (lib_Return _ _ _ _ _ Hroot). simpl.
  rewrite (list_params_request _ _ Hreq).
  unfold bind, ret. simpl. reflexivity.
Qed.

(** C1. For a name without a dot, [list(name)] yields the records of all the
    pages that the accessor serves, in page order and in-page order, each page
    once: the first page comes from [get], and [get_next] is called once for
    every page served while [records_remaining] is true and not again once
    the flag is false. *)
Theorem list_simple_name_all_pages (fuel : nat) (name : string) (kwargs : Params)
    w request w0 pages w' :
  has_char dot name = false ->
  kwargs !! "nested_names" = None ->
  kwargs !! "request" = None ->
  client_getattr name w = (inr request, w0) ->
  serves request (<["per_page" := VInt DEFAULT_ITEMS_PER_PAGE]> kwargs) w0 pages w' ->
  (List.length pages <= fuel)%nat ->
  list_ fuel name kwargs w =
  mkRun (records pages)
        (EClientGetAttr name
         :: EGet request (<["per_page" := VInt DEFAULT_ITEMS_PER_PAGE]> kwargs)
         :: replicate (List.length pages - 1) (EGetNext request))
        (Return tt) w'.
Proof.
  intros Hdot Hnested Hreq Hroot Hserves Hfuel.
  rewrite <- (root_segment_simple _ Hdot) in Hroot.
  rewrite (list_unfold _ _ _ _ _ _ Hreq Hroot).
  rewrite (list_params_simple _ _ Hdot), (root_segment_simple _ Hdot).
  rewrite (paginator_flat fuel request _ w0 pages w'); [reflexivity | | assumption..].
  rewrite lookup_insert_ne by discriminate. exact Hnested.
Qed.

(** ** The requests that [paginator] and [list] issue *)

Lemma Forall_trace_bind_Return {A B} (P : Event -> Prop) (m : Gen A) (k : A -> Gen B) w :
  Forall P (trace (m w)) ->
  (forall a, outcome (m w) = Return a -> Forall P (trace (k a (final (m w))))) ->
  Forall P (trace (bind m k w)).
Proof.
  intros Hm Hk. rewrite trace_bind. apply Forall_app. split; [exact Hm|].
  destruct (outcome (m w)); auto.
Qed.

Lemma for_each_trace {A} (P : Event -> Prop) (body : A -> Gen unit) (xs : list A) w :
  (forall x w', Forall P (trace (body x w'))) ->
  Forall P (trace (for_each xs body w)).
Proof.
  intros Hbody. revert w. induction xs as [|x xs IH]; intros w; simpl; [constructor|].
  apply Forall_trace_bind; auto.
Qed.

Lemma paginator_empty_trace (fuel : nat) (a : Accessor) w :
  Forall after_root (trace (paginator fuel a ∅ w)).
Proof.
  destruct fuel as [|fuel]; simpl; [constructor|].
  rewrite lookup_empty.
  apply Forall_trace_bind; [repeat constructor|]. intros rows w1.
  apply Forall_trace_bind; [constructor|]. intros _ w2.
  eapply Forall_impl; [apply while_remaining_trace|].
  intros ev ->. exact I.
Qed.

Lemma descend_trace (fuel : nat) (request : Accessor) (params : Params)
    (nested_names : Value) (row : Row) w :
  carries_page_size params ->
  params !! "nested_names" = None ->
  Forall after_root (trace (descend (paginator fuel) request params nested_names row w)).
Proof.
  intros Hsize Hnone. unfold descend.
  apply Forall_trace_bind; [rewrite trace_py; constructor|]. intros object_id w1.
  apply Forall_trace_bind; [destruct (params !! "object_id"); constructor|].
  intros _ w2.
  apply Forall_trace_bind; [repeat constructor; assumption|]. intros scoped w3.
  apply Forall_trace_bind; [rewrite trace_py; constructor|]. intros rel w4.
  apply Forall_trace_bind; [repeat constructor|]. intros child w5.
  apply paginator_empty_trace.
Qed.

(** The first request goes to [request] with [params] as they are; whatever
    follows is of the shape [after_root]. *)
Lemma paginator_trace (fuel : nat) (request : Accessor) (params : Params) w :
  carries_page_size params ->
  exists rest,
    trace (paginator (S fuel) request params w) = EGet request params :: rest /\
    Forall after_root rest.
Proof.
  intros Hsize. simpl. rewrite trace_bind. simpl.
  eexists. split; [reflexivity|].
  destruct (acc_get request params w) as [[e|rows] w0]; simpl; [constructor|].
  apply Forall_trace_bind.
  2:{ intros _ w'. eapply Forall_impl; [apply while_remaining_trace|].
      intros ev ->. exact I. }
  destruct (params !! "nested_names") as [nested_names|] eqn:Hnested; [|constructor].
  apply Forall_trace_bind; [rewrite trace_py; constructor|]. intros n w1.
  apply Forall_trace_bind_Return.
  - destruct (1 <? n)%nat; [|constructor].
    unfold bind. rewrite getitem_after_pop. simpl. constructor.
  - intros params2 Hparams2.
    assert (params2 = delete "nested_names" params) as ->.
    { destruct (1 <? n)%nat.
      - unfold bind in Hparams2. rewrite getitem_after_pop in Hparams2. discriminate.
      - simpl in Hparams2. congruence. }
    apply for_each_trace. intros row w'. apply descend_trace.
    + unfold carries_page_size. rewrite lookup_delete_ne by discriminate. exact Hsize.
    + apply lookup_delete_eq.
Qed.

(** A chain of two or more relation names: the subscript
    [params["nested_names"]] comes after the [pop] of that key, so the
    generator raises [KeyError] right after its first request. *)
Lemma paginator_chain_KeyError (fuel : nat) (request : Accessor) (params : Params)
    (chain : list string) rows w w1 :
  params !! "nested_names" = Some (VList chain) ->
  (1 < List.length chain)%nat ->
  acc_get request params w = (inr rows, w1) ->
  paginator (S fuel) request params w =
  mkRun [] [EGet request params] (Raise (KeyError "nested_names")) w1.
Proof.
  intros Hnested Hlen Hget.
  cbn [paginator]. rewrite Hnested.
  erewrite bind_silent; cycle 1.
  - apply lib_Return. exact Hget.
  - apply bind_Raise.
    eapply bind_silent; [reflexivity|].
    apply bind_Raise.
    apply Nat.ltb_lt in Hlen. rewrite Hlen.
    apply bind_Raise.
    rewrite getitem_after_pop. reflexivity.
  - reflexivity.
Qed.

Lemma list_params_compound (name : string) (kwargs : Params) :
  has_char dot name = true ->
  py_tail (split_on dot name) <> [] /\
  list_params name kwargs =
  <["nested_names" := VList (py_tail (split_on dot name))]>
    (<["per_page" := VInt DEFAULT_ITEMS_PER_PAGE]> kwargs).
Proof.
  intros H. apply split_on_sep_parts in H. unfold list_params.
  destruct (split_on dot name) as [|root [|rel rest]]; simpl in *; try lia.
  split; [discriminate | reflexivity].
Qed.


(** C10. For a name with a dot, the first request that [list(name)] sends to
    the root accessor carries the list of the relation names under
    [nested_names], next to [per_page] and to every filter of the caller; the
    key is gone from the parameters of the later scoping calls. *)
Theorem list_compound_first_get_params (fuel : nat) (name : string) (kwargs : Params)
    w request w0 :
  has_char dot name = true ->
  kwargs !! "request" = None ->
  client_getattr (root_segment name) w = (inr request, w0) ->
  exists params rest,
    trace (list_ (S fuel) name kwargs w) =
      EClientGetAttr (root_segment name) :: EGet request params :: rest /\
    params !! "nested_names" = Some (VList (py_tail (split_on dot name))) /\
    py_tail (split_on dot name) <> [] /\
    params !! "per_page" = Some (VInt DEFAULT_ITEMS_PER_PAGE) /\
    (forall key v, key <> "per_page" -> key <> "nested_names" ->
                   kwargs !! key = Some v -> params !! key = Some v) /\
    Forall after_root rest.
Proof.
  intros Hdot Hreq Hroot.
  destruct (paginator_trace fuel request (list_params name kwargs) w0
              (list_params_per_page name kwargs)) as (rest & Htrace & Hrest).
  destruct (list_params_compound name kwargs Hdot) as [Hne Hparams].
  exists (list_params name kwargs), rest.
  rewrite (list_unfold _ _ _ _ _ _ Hreq Hroot). cbv zeta. cbn [trace].
  rewrite Htrace. split; [reflexivity|].
  split; [rewrite Hparams; apply lookup_insert_eq|].
  split; [exact Hne|].
  split; [apply list_params_per_page|].
  split; [|exact Hrest].
  intros key v H1 H2 Hkey. rewrite Hparams.
  rewrite !lookup_insert_ne by congruence. exact Hkey.
Qed.

(** ** One level of nesting *)

Lemma descends_length (request : Accessor) (params : Params) (rel : string)
    rows w kids w' :
  descends request params rel rows w kids w' -> List.length kids = List.length rows.
Proof. induction 1; simpl; congruence. Qed.

(** The [for] loop over the parent records yields, parent by parent, all the
    records of the parent's child accessor. *)
Lemma for_each_descend (fuel : nat) (request : Accessor) (params : Params)
    (nested_names : Value) (rel : string) rows w kids w' :
  descends request params rel rows w kids w' ->
  params !! "object_id" = None ->
  py_first nested_names = inr rel ->
  Forall (fun pages => (List.length pages <= fuel)%nat) kids ->
  exists tr,
    for_each rows (descend (paginator fuel) request params nested_names) w =
    mkRun (concat (map records kids)) tr (Return tt) w'.
Proof.
  intros Hdesc Hoid Hrel.
  induction Hdesc as [w | row rows object_id scoped child pages kids
                           w w1 w2 w3 w4 Hid Hcall Hattr Hserves _ IH];
    intros Hfuel.
  - exists []. reflexivity.
  - apply Forall_cons in Hfuel as [Hpages Hkids].
    destruct (IH Hkids) as [tr Htr].
    eexists. simpl.
    eapply bind_Return; [|exact Htr].
    unfold descend, py_getitem. rewrite Hid, Hoid, Hrel. simpl.
    eapply bind_silent; [reflexivity|].
    eapply bind_silent; [reflexivity|].
    eapply bind_silent; [apply lib_Return; exact Hcall|].
    eapply bind_silent; [reflexivity|].
    eapply bind_silent; [apply lib_Return; exact Hattr|].
    apply paginator_flat; [apply lookup_empty | exact Hserves | exact Hpages].
Qed.

(** [paginator] with one relation name: the children of the records of the
    first parent page, parent by parent, and then the further parent pages as
    they come. *)
Lemma paginator_one_relation (fuel : nat) (request : Accessor) (params : Params)
    (rel : string) w parents w1 kids w2 ps w3 :
  params !! "nested_names" = Some (VList [rel]) ->
  params !! "object_id" = None ->
  acc_get request params w = (inr parents, w1) ->
  descends request (delete "nested_names" params) rel parents w1 kids w2 ->
  drains request w2 ps w3 ->
  Forall (fun pages => (List.length pages <= fuel)%nat) kids ->
  (List.length ps <= fuel)%nat ->
  exists tr,
    paginator (S fuel) request params w =
    mkRun (concat (map records kids) ++ records ps) tr (Return tt) w3.
Proof.
  intros Hnested Hoid Hget Hdesc Hdrain Hkids Hps.
  destruct (for_each_descend fuel request _ (VList [rel]) rel _ _ _ _ Hdesc)
    as [tr Htr]; [by rewrite lookup_delete_ne | reflexivity | exact Hkids |].
  eexists. simpl. rewrite Hnested.
  eapply bind_silent; [apply lib_Return; exact Hget|].
  eapply bind_Return; [|apply (while_remaining_drains _ _ _ _ Hdrain); exact Hps].
  simpl.
  eapply bind_silent; [reflexivity|].
  eapply bind_silent; [reflexivity|].
  exact Htr.
Qed.

Lemma length_concat_uniform {A} (K : nat) (ls : list (list A)) :
  Forall (fun l => List.length l = K) ls ->
  List.length (concat ls) = (List.length ls * K)%nat.
Proof.
  induction 1 as [|l ls Hl _ IH]; simpl; [reflexivity|].
  rewrite length_app, IH, Hl. reflexivity.
Qed.

(** [list] on a name [root.rel]: the children of the records of the first
    parent page, and then the further parent pages. *)
Lemma list_one_relation (fuel : nat) (name root rel : string) (kwargs : Params)
    w request w0 parents w1 kids w2 ps w3 :
  split_on dot name = [root; rel] ->
  kwargs !! "request" = None ->
  kwargs !! "object_id" = None ->
  client_getattr root w = (inr request, w0) ->
  acc_get request (list_params name kwargs) w0 = (inr parents, w1) ->
  descends request (delete "nested_names" (list_params name kwargs)) rel
           parents w1 kids w2 ->
  drains request w2 ps w3 ->
  Forall (fun pages => (List.length pages < fuel)%nat) kids ->
  (List.length ps < fuel)%nat ->
  exists tr,
    list_ fuel name kwargs w =
    mkRun (concat (map records kids) ++ records ps)
          (EClientGetAttr root :: tr) (Return tt) w3.
Proof.
  intros Hsplit Hreq Hoid Hroot Hget Hdesc Hdrain Hfuel Hps.
  assert (root_segment name = root) as Hseg by (unfold root_segment; by rewrite Hsplit).
  assert (list_params name kwargs =
          <["nested_names" := VList [rel]]>
            (<["per_page" := VInt DEFAULT_ITEMS_PER_PAGE]> kwargs)) as Hparams
    by (unfold list_params; by rewrite Hsplit).
  rewrite <- Hseg in Hroot.
  rewrite (list_unfold _ _ _ _ _ _ Hreq Hroot). cbv zeta. rewrite Hseg.
  destruct fuel as [|fuel]; [lia|].
  destruct (paginator_one_relation fuel request (list_params name kwargs) rel
              w0 parents w1 kids w2 ps w3) as [tr Htr].
  - rewrite Hparams. apply lookup_insert_eq.
  - rewrite Hparams. by rewrite !lookup_insert_ne.
  - exact Hget.
  - exact Hdesc.
  - exact Hdrain.
  - eapply Forall_impl; [exact Hfuel|]. simpl. intros; lia.
  - lia.
  - exists tr. rewrite Htr. reflexivity.
Qed.

(** C4. For a name [root.rel], when the root accessor serves a single batch
    of M parent records and the child accessor of every parent record serves
    K records, [list] yields the children of the first parent, then those of
    the second, and so on: M * K records. *)
Theorem list_two_level_parent_major (fuel : nat) (name root rel : string)
    (kwargs : Params) (K : nat) w request w0 parents w1 kids w2 :
  split_on dot name = [root; rel] ->
  kwargs !! "request" = None ->
  kwargs !! "object_id" = None ->
  client_getattr root w = (inr request, w0) ->
  acc_get request (list_params name kwargs) w0 = (inr parents, w1) ->
  descends request (delete "nested_names" (list_params name kwargs)) rel
           parents w1 kids w2 ->
  acc_records_remaining request w2 = false ->
  Forall (fun pages => List.length (records pages) = K) kids ->
  Forall (fun pages => (List.length pages < fuel)%nat) kids ->
  (0 < fuel)%nat ->
  yielded (list_ fuel name kwargs w) = concat (map records kids) /\
  List.length (yielded (list_ fuel name kwargs w)) = (List.length parents * K)%nat /\
  outcome (list_ fuel name kwargs w) = Return tt.
Proof.
  intros Hsplit Hreq Hoid Hroot Hget Hdesc Hflag HK Hfuel Hpos.
  destruct (list_one_relation fuel name root rel kwargs w request w0 parents w1
              kids w2 [] w2) as [tr Htr]; try assumption.
  { by constructor. }
  rewrite Htr. cbn [yielded outcome]. rewrite app_nil_r.
  split; [reflexivity|]. split; [|reflexivity].
  rewrite (length_concat_uniform K).
  - rewrite length_map. by rewrite (descends_length _ _ _ _ _ _ _ Hdesc).
  - apply Forall_map. exact HK.
Qed.

(** C2. For a name [root.rel], once the children of the first parent page are
    out, every further page that the root accessor serves is yielded as it
    comes: the records of the later parent pages are emitted themselves, not
    their children. *)
Theorem list_two_level_later_pages_raw (fuel : nat) (name root rel : string)
    (kwargs : Params) w request w0 parents w1 kids w2 ps w3 :
  split_on dot name = [root; rel] ->
  kwargs !! "request" = None ->
  kwargs !! "object_id" = None ->
  client_getattr root w = (inr request, w0) ->
  acc_get request (list_params name kwargs) w0 = (inr parents, w1) ->
  descends request (delete "nested_names" (list_params name kwargs)) rel
           parents w1 kids w2 ->
  drains request w2 ps w3 ->
  Forall (fun pages => (List.length pages < fuel)%nat) kids ->
  (List.length ps < fuel)%nat ->
  yielded (list_ fuel name kwargs w) = concat (map records kids) ++ records ps /\
  outcome (list_ fuel name kwargs w) = Return tt.
Proof.
  intros Hsplit Hreq Hoid Hroot Hget Hdesc Hdrain Hfuel Hps.
  destruct (list_one_relation fuel name root rel kwargs w request w0 parents w1
              kids w2 ps w3) as [tr Htr]; try assumption.
  rewrite Htr. split; reflexivity.
Qed.

(** C3. For a name with two or more relation segments, [list] sends the first
    request to the root accessor and then raises [KeyError], without a
    record. *)
Theorem list_long_chain_KeyError (fuel : nat) (name : string) (kwargs : Params)
    w request w0 rows w1 :
  (2 < List.length (split_on dot name))%nat ->
  kwargs !! "request" = None ->
  client_getattr (root_segment name) w = (inr request, w0) ->
  acc_get request (list_params name kwargs) w0 = (inr rows, w1) ->
  list_ (S fuel) name kwargs w =
  mkRun []
        [EClientGetAttr (root_segment name); EGet request (list_params name kwargs)]
        (Raise (KeyError "nested_names")) w1.
Proof.
  intros Hlen Hreq Hroot Hget.
  rewrite (list_unfold _ _ _ _ _ _ Hreq Hroot). cbv zeta.
  rewrite (paginator_chain_KeyError fuel request (list_params name kwargs)
             (py_tail (split_on dot name)) rows w0 w1); [reflexivity | | | exact Hget].
  - unfold list_params.
    destruct (split_on dot name) as [|root [|rel rest]]; simpl in *; try lia.
    apply lookup_insert_eq.
  - destruct (split_on dot name) as [|root [|rel [|rel' rest]]]; simpl in *; lia.
Qed.

(** ** Probing *)

Lemma probe_yields_nothing (entity : string) w : yielded (probe entity w) = [].
Proof.
  unfold probe, bind, lib, ret. simpl.
  destruct (client_getattr entity w) as [[e|a] w1]; simpl; [reflexivity|].
  destruct (acc_get a ∅ w1) as [[e|rows] w2]; reflexivity.
Qed.

Lemma probe_fuel_free (entity : string) w : outcome (probe entity w) <> OutOfFuel.
Proof.
  unfold probe, bind, lib, ret. simpl.
  destruct (client_getattr entity w) as [[e|a] w1]; simpl; [discriminate|].
  destruct (acc_get a ∅ w1) as [[e|rows] w2]; discriminate.
Qed.

Lemma bind_ret_run {A B} (m : Gen A) (b : B) w :
  (m ;;; ret b) w =
  mkRun (yielded (m w)) (trace (m w))
        (match outcome (m w) with
         | Return _ => Return b
         | Raise e => Raise e
         | OutOfFuel => OutOfFuel
         end)
        (final (m w)).
Proof.
  unfold bind, ret. destruct (outcome (m w)); simpl; rewrite ?app_nil_r; reflexivity.
Qed.

(** One turn of the loop, by the outcome of the probe. *)
Lemma probe_step_run (accessible : list string) (entity : string) w :
  probe_step accessible entity w =
  let r := probe entity w in
  match outcome r with
  | Return _ => mkRun [] (trace r) (Return (accessible ++ [entity])) (final r)
  | Raise (HTTPError msg) =>
      mkRun [] (trace r ++ [ELogWarn entity msg])
            (if contains PERMISSION_PATTERN msg
             then Return accessible else Raise (HTTPError msg))
            (final r)
  | Raise (PyError cls msg) => mkRun [] (trace r) (Raise (PyError cls msg)) (final r)
  | OutOfFuel => mkRun [] (trace r) OutOfFuel (final r)
  end.
Proof.
  unfold probe_step, try_except_HTTPError. rewrite bind_ret_run. cbv zeta.
  cbn [yielded trace outcome final]. rewrite probe_yields_nothing.
  destruct (outcome (probe entity w)) as [[]|[msg|cls msg]|]; try reflexivity.
  unfold bind, log, ret, raise. simpl.
  destruct (contains PERMISSION_PATTERN msg); reflexivity.
Qed.

Lemma probe_step_admitted (accessible : list string) (entity : string) w :
  outcome (probe entity w) = Return tt ->
  probe_step accessible entity w =
  mkRun [] (trace (probe entity w)) (Return (accessible ++ [entity]))
        (final (probe entity w)).
Proof. intros H. rewrite probe_step_run. cbv zeta. rewrite H. reflexivity. Qed.

Lemma probe_step_denied (accessible : list string) (entity msg : string) w :
  outcome (probe entity w) = Raise (HTTPError msg) ->
  contains PERMISSION_PATTERN msg = true ->
  probe_step accessible entity w =
  mkRun [] (trace (probe entity w) ++ [ELogWarn entity msg]) (Return accessible)
        (final (probe entity w)).
Proof.
  intros H Hmsg. rewrite probe_step_run. cbv zeta. rewrite H, Hmsg. reflexivity.
Qed.

Lemma probe_step_fatal (accessible : list string) (entity : string) (e : Exn) w :
  outcome (probe entity w) = Raise e ->
  contains PERMISSION_PATTERN (exn_str e) = false ->
  probe_step accessible entity w =
  mkRun [] (trace (probe entity w) ++ warning entity e) (Raise e)
        (final (probe entity w)).
Proof.
  intros H Hmsg. rewrite probe_step_run. cbv zeta. rewrite H.
  destruct e as [msg|cls msg]; simpl in *.
  - rewrite Hmsg. reflexivity.
  - rewrite app_nil_r. reflexivity.
Qed.

Lemma probe_step_yields_nothing (accessible : list string) (entity : string) w :
  yielded (probe_step accessible entity w) = [].
Proof.
  rewrite probe_step_run. cbv zeta.
  destruct (outcome (probe entity w)) as [[]|[msg|cls msg]|]; reflexivity.
Qed.

Lemma probe_step_fuel_free (accessible : list string) (entity : string) w :
  outcome (probe_step accessible entity w) <> OutOfFuel.
Proof.
  rewrite probe_step_run. cbv zeta.
  pose proof (probe_fuel_free entity w) as Hfree.
  destruct (outcome (probe entity w)) as [[]|[msg|cls msg]|]; simpl;
    try discriminate; try congruence.
  destruct (contains PERMISSION_PATTERN msg); discriminate.
Qed.

Lemma probe_loop_yields_nothing (entities accessible : list string) w :
  yielded (probe_loop entities accessible w) = [].
Proof.
  revert accessible w. induction entities as [|entity rest IH]; intros accessible w;
    simpl; [reflexivity|].
  unfold bind. pose proof (probe_step_yields_nothing accessible entity w) as Hstep.
  destruct (outcome (probe_step accessible entity w)); simpl; rewrite Hstep; simpl; auto.
Qed.

Lemma probe_loop_fuel_free (entities accessible : list string) w :
  outcome (probe_loop entities accessible w) <> OutOfFuel.
Proof.
  revert accessible w. induction entities as [|entity rest IH]; intros accessible w;
    simpl; [discriminate|].
  unfold bind. pose proof (probe_step_fuel_free accessible entity w) as Hstep.
  destruct (outcome (probe_step accessible entity w)); simpl;
    [apply IH | discriminate | congruence].
Qed.

(** The loop over [pre ++ rest] is the loop over [pre] followed by the loop
    over [rest], when the former comes to its end. *)
Lemma probe_loop_app (pre rest accessible accessible' : list string) w :
  outcome (probe_loop pre accessible w) = Return accessible' ->
  let r := probe_loop pre accessible w in
  let r' := probe_loop rest accessible' (final r) in
  probe_loop (pre ++ rest) accessible w =
  mkRun [] (trace r ++ trace r') (outcome r') (final r').
Proof.
  revert accessible w.
  induction pre as [|entity pre IH]; intros accessible w Hpre; simpl in *.
  - injection Hpre as <-.
    pose proof (probe_loop_yields_nothing rest accessible w) as Hy.
    destruct (probe_loop rest accessible w); simpl in *. by subst.
  - unfold bind in *.
    pose proof (probe_step_yields_nothing accessible entity w) as Hy.
    destruct (outcome (probe_step accessible entity w)) as [acc1| |] eqn:Hstep;
      simpl in *; try discriminate.
    rewrite Hy. rewrite (IH _ _ Hpre). simpl.
    rewrite app_assoc. reflexivity.
Qed.

(** When every probe either succeeds or is denied, the loop keeps exactly the
    entities whose probe succeeded, in the order of the list. *)
Lemma probe_loop_filter (denied : string -> bool) (entities : list string) :
  (forall entity w, In entity entities ->
     if denied entity then denies entity w else admits entity w) ->
  forall accessible w,
    outcome (probe_loop entities accessible w) =
    Return (accessible ++ List.filter (fun entity => negb (denied entity)) entities).
Proof.
  induction entities as [|entity rest IH]; intros Hprobe accessible w; simpl.
  - by rewrite app_nil_r.
  - pose proof (Hprobe entity w (or_introl eq_refl)) as Hentity.
    assert (forall e w', In e rest ->
              if denied e then denies e w' else admits e w') as Hrest
      by (intros; apply Hprobe; by right).
    unfold bind.
    destruct (denied entity); simpl.
    + destruct Hentity as (msg & Hraise & Hmsg).
      rewrite (probe_step_denied _ _ _ _ Hraise Hmsg). simpl.
      apply (IH Hrest).
    + rewrite (probe_step_admitted _ _ _ Hentity). simpl.
      rewrite (IH Hrest). by rewrite <- app_assoc.
Qed.


(** C5. When the probe of every catalog entity either succeeds or raises the
    permission-denied error, [get_accessible_endpoints] returns the catalog,
    in catalog order, restricted to the entities whose probe succeeded. *)
Theorem get_accessible_endpoints_restricts_catalog (denied : string -> bool) w :
  (forall entity w', In entity ENTITIES ->
     if denied entity then denies entity w' else admits entity w') ->
  outcome (get_accessible_endpoints w) =
  Return (List.filter (fun entity => negb (denied entity)) ENTITIES).
Proof.
  intros Hprobe. unfold get_accessible_endpoints.
  pose proof (probe_loop_filter denied ENTITIES Hprobe [] w) as Hloop.
  unfold bind at 1. rewrite Hloop. reflexivity.
Qed.

(** C7. When the loop reaches a catalog entity [E] whose probe raises an
    error with a message that lacks the permission-denied pattern,
    [get_accessible_endpoints] raises that error, and the probe of [E] is the
    last call it makes: no entity after [E] is probed. *)
Theorem get_accessible_endpoints_aborts (pre post accessible : list string)
    (E : string) (e : Exn) w :
  ENTITIES = pre ++ E :: post ->
  outcome (probe_loop pre [] w) = Return accessible ->
  outcome (probe E (final (probe_loop pre [] w))) = Raise e ->
  contains PERMISSION_PATTERN (exn_str e) = false ->
  get_accessible_endpoints w =
  mkRun []
        (trace (probe_loop pre [] w)
         ++ trace (probe E (final (probe_loop pre [] w)))
         ++ warning E e)
        (Raise e)
        (final (probe E (final (probe_loop pre [] w)))).
Proof.
  intros Hcatalog Hpre Hraise Hmsg. unfold get_accessible_endpoints.
  rewrite Hcatalog.
  apply bind_Raise.
  rewrite (probe_loop_app pre (E :: post) [] accessible w Hpre). cbv zeta.
  simpl probe_loop. unfold bind.
  rewrite (probe_step_fatal _ _ _ _ Hraise Hmsg). reflexivity.
Qed.

(** C6, amended. [health_check] never raises an [HTTPError]: it returns
    [(False, fixed message)] when no endpoint is accessible, [(True, None)]
    when some endpoint is, and [(False, str(error))] when the probing raises
    an [HTTPError]; any other exception of the probing propagates. *)
Theorem health_check_cases w :
  outcome (get_accessible_endpoints w) <> OutOfFuel /\
  outcome (health_check w) =
  match outcome (get_accessible_endpoints w) with
  | Return [] => Return (false, Some NO_ENDPOINTS_MESSAGE)
  | Return (_ :: _) => Return (true, None)
  | Raise (HTTPError msg) => Return (false, Some msg)
  | Raise (PyError cls msg) => Raise (PyError cls msg)
  | OutOfFuel => OutOfFuel
  end.
Proof.
  split.
  - unfold get_accessible_endpoints, bind.
    pose proof (probe_loop_fuel_free ENTITIES [] w) as Hfree.
    destruct (outcome (probe_loop ENTITIES [] w)); simpl;
      [discriminate | discriminate | congruence].
  - unfold health_check. rewrite outcome_try_except, outcome_bind.
    destruct (outcome (get_accessible_endpoints w)) as [[|x l]|[msg|cls msg]|];
      reflexivity.
Qed.

End Properties.


(** * Concrete runs on the in-memory library *)

(** C1 on the three pages of jobs. *)
Lemma list_simple_name_all_pages_witness :
  list_ (L := Mock.library Mock.site) 3 "jobs" ∅ ∅ =
  mkRun (L := Mock.library Mock.site)
        (records Mock.jobs_pages)
        (@EClientGetAttr (Mock.library Mock.site) "jobs"
         :: @EGet (Mock.library Mock.site) "jobs"
                  (<["per_page" := VInt DEFAULT_ITEMS_PER_PAGE]> ∅)
         :: replicate (List.length Mock.jobs_pages - 1)
                      (@EGetNext (Mock.library Mock.site) "jobs"))
        (Return tt)
        (<["jobs" := []]> ∅).
Proof.
  apply (list_simple_name_all_pages (L := Mock.library Mock.site)
           3 "jobs" ∅ ∅ "jobs" ∅ Mock.jobs_pages (<["jobs" := []]> ∅)).
  - reflexivity.
  - reflexivity.
  - reflexivity.
  - reflexivity.
  - apply (serve_pages_serves (L := Mock.library Mock.site) 2).
    reflexivity.
  - simpl. lia.
Defined.

(** C4 on the two question sets, with two questions each. *)
Lemma list_two_level_parent_major_witness :
  yielded (list_ (L := Mock.library Mock.site) 3
                 "demographics_question_sets.questions" ∅ ∅) =
    concat (map records Mock.questions_pages) /\
  List.length (yielded (list_ (L := Mock.library Mock.site) 3
                              "demographics_question_sets.questions" ∅ ∅)) =
    (List.length [Mock.row 1 "s1"; Mock.row 2 "s2"] * 2)%nat /\
  outcome (list_ (L := Mock.library Mock.site) 3
                 "demographics_question_sets.questions" ∅ ∅) = Return tt.
Proof.
  apply (list_two_level_parent_major (L := Mock.library Mock.site)
           3 "demographics_question_sets.questions"
           "demographics_question_sets" "questions" ∅ 2 ∅
           "demographics_question_sets" ∅
           [Mock.row 1 "s1"; Mock.row 2 "s2"]
           (<["demographics_question_sets" := []]> ∅)
           Mock.questions_pages
           (<["demographics_question_sets/2/questions" := []]>
              (<["demographics_question_sets/1/questions" := []]>
                 (<["demographics_question_sets" := []]> ∅)))).
  - reflexivity.
  - reflexivity.
  - reflexivity.
  - reflexivity.
  - reflexivity.
  - apply (descend_pages_descends (L := Mock.library Mock.site) 2).
    reflexivity.
  - reflexivity.
  - repeat first [apply List.Forall_nil | apply List.Forall_cons; [reflexivity|]].
  - repeat first [apply List.Forall_nil | apply List.Forall_cons; [simpl; lia|]].
  - lia.
Defined.

(** C5 for a key that is denied four endpoints. *)
Lemma get_accessible_endpoints_restricts_catalog_witness :
  outcome (get_accessible_endpoints (L := Mock.library Mock.restricted) ∅) =
  Return (List.filter (fun entity => negb (Mock.forbidden entity)) ENTITIES).
Proof.
  apply (get_accessible_endpoints_restricts_catalog
           (L := Mock.library Mock.restricted) Mock.forbidden ∅).
  intros entity w' Hin. unfold ENTITIES in Hin. simpl in Hin.
  repeat (destruct Hin as [<-|Hin];
          [first [ exists Mock.denial; split; reflexivity | reflexivity ] |]).
  destruct Hin.
Defined.

(** C7 on a site where the second catalog entity answers with a server
    error. *)
Lemma get_accessible_endpoints_aborts_witness :
  get_accessible_endpoints (L := Mock.library Mock.site) ∅ =
  mkRun (L := Mock.library Mock.site) []
        (trace (probe_loop (L := Mock.library Mock.site) ["applications"] [] ∅)
         ++ trace (probe (L := Mock.library Mock.site) "candidates"
                     (final (probe_loop (L := Mock.library Mock.site)
                               ["applications"] [] ∅)))
         ++ warning (L := Mock.library Mock.site) "candidates"
                    (HTTPError "500 Server Error"))
        (Raise (HTTPError "500 Server Error"))
        (final (probe (L := Mock.library Mock.site) "candidates"
                  (final (probe_loop (L := Mock.library Mock.site)
                            ["applications"] [] ∅)))).
Proof.
  apply (get_accessible_endpoints_aborts (L := Mock.library Mock.site)
           ["applications"] (drop 2 ENTITIES) ["applications"] "candidates"
           (HTTPError "500 Server Error") ∅).
  - reflexivity.
  - reflexivity.
  - reflexivity.
  - reflexivity.
Defined.


(** C10 for a caller that passes a filter. *)
Lemma list_compound_first_get_params_witness :
  exists params rest,
    trace (list_ (L := Mock.library Mock.site) 3 "applications.interviews"
                 (<["created_after" := VStr "2021-01-01"]> ∅) ∅) =
      @EClientGetAttr (Mock.library Mock.site) (root_segment "applications.interviews")
      :: @EGet (Mock.library Mock.site) "applications" params :: rest /\
    params !! "nested_names" =
      Some (VList (py_tail (split_on dot "applications.interviews"))) /\
    py_tail (split_on dot "applications.interviews") <> [] /\
    params !! "per_page" = Some (VInt DEFAULT_ITEMS_PER_PAGE) /\
    (forall key v, key <> "per_page" -> key <> "nested_names" ->
       (<["created_after" := VStr "2021-01-01"]> ∅ : Params) !! key = Some v ->
       params !! key = Some v) /\
    Forall (after_root (L := Mock.library Mock.site)) rest.
Proof.
  apply (list_compound_first_get_params (L := Mock.library Mock.site)
           2 "applications.interviews" (<["created_after" := VStr "2021-01-01"]> ∅) ∅
           "applications" ∅).
  - reflexivity.
  - reflexivity.
  - reflexivity.
Defined.

(** C2 on the two pages of applications: the interviews of applications 1
    and 2, then application 3 itself. *)
Lemma list_two_level_later_pages_raw_witness :
  yielded (list_ (L := Mock.library Mock.site) 3 "applications.interviews" ∅ ∅) =
    concat (map records Mock.interviews_pages) ++ records [[Mock.row 3 "a3"]] /\
  outcome (list_ (L := Mock.library Mock.site) 3 "applications.interviews" ∅ ∅) =
    Return tt.
Proof.
  apply (list_two_level_later_pages_raw (L := Mock.library Mock.site)
           3 "applications.interviews" "applications" "interviews" ∅ ∅
           "applications" ∅
           [Mock.row 1 "a1"; Mock.row 2 "a2"]
           (<["applications" := [[Mock.row 3 "a3"]]]> ∅)
           Mock.interviews_pages
           (<["applications/2/interviews" := []]>
              (<["applications/1/interviews" := []]>
                 (<["applications" := [[Mock.row 3 "a3"]]]> ∅)))
           [[Mock.row 3 "a3"]]
           (<["applications" := []]>
              (<["applications/2/interviews" := []]>
                 (<["applications/1/interviews" := []]>
                    (<["applications" := [[Mock.row 3 "a3"]]]> ∅))))).
  - reflexivity.
  - reflexivity.
  - reflexivity.
  - reflexivity.
  - reflexivity.
  - apply (descend_pages_descends (L := Mock.library Mock.site) 2).
    reflexivity.
  - apply (drain_pages_drains (L := Mock.library Mock.site) 2).
    reflexivity.
  - repeat first [apply List.Forall_nil | apply List.Forall_cons; [simpl; lia|]].
  - simpl. lia.
Defined.

(** The same run, record by record: the last record is a parent record. *)
Lemma applications_interviews_yielded :
  yielded (list_ (L := Mock.library Mock.site) 3 "applications.interviews" ∅ ∅) =
    [Mock.row 11 "i11"; Mock.row 12 "i12"; Mock.row 21 "i21"; Mock.row 22 "i22";
     Mock.row 3 "a3"] /\
  In (Mock.row 3 "a3") (records Mock.applications_pages).
Proof.
  split; [reflexivity|]. simpl. auto.
Qed.

(** C3 on a chain of two relation names. *)
Lemma list_long_chain_KeyError_witness :
  list_ (L := Mock.library Mock.site) 3 "applications.interviews.scorecards" ∅ ∅ =
  mkRun (L := Mock.library Mock.site) []
        [@EClientGetAttr (Mock.library Mock.site)
           (root_segment "applications.interviews.scorecards");
         @EGet (Mock.library Mock.site) "applications"
               (list_params "applications.interviews.scorecards" ∅)]
        (Raise (KeyError "nested_names"))
        (<["applications" := [[Mock.row 3 "a3"]]]> ∅).
Proof.
  apply (list_long_chain_KeyError (L := Mock.library Mock.site)
           2 "applications.interviews.scorecards" ∅ ∅ "applications" ∅
           [Mock.row 1 "a1"; Mock.row 2 "a2"]
           (<["applications" := [[Mock.row 3 "a3"]]]> ∅)).
  - simpl. lia.
  - reflexivity.
  - reflexivity.
  - reflexivity.
Defined.

(** C6, as stated, fails: when the client raises an exception that is not an
    [HTTPError], [health_check] raises it. *)
Lemma health_check_raises :
  outcome (health_check (L := Mock.library Mock.strict) ∅) =
  Raise (PyError "AttributeError" "applications.demographics_answers").
Proof. reflexivity. Qed.




(** That entity is in the catalog, and its root segment is [applications]. *)
Lemma demographics_answers_root :
  In "applications.demographics_answers" ENTITIES /\
  root_segment "applications.demographics_answers" = "applications".
Proof. split; [unfold ENTITIES; simpl; tauto | reflexivity]. Qed.

(** * Further properties of the traversal *)

Section Traversal.
Context {L : HarvestLib}.

Notation "x <- m ;; k" := (bind m (fun x => k))
  (at level 100, m at next level, right associativity).
Notation "m ;;; k" := (bind m (fun _ => k))
  (at level 100, right associativity).

(** X1. When the client has no accessor for the root segment, [list] raises
    what [getattr] raised and makes no request at all. *)
Theorem list_resolution_error (fuel : nat) (name : string) (kwargs : Params)
    w (e : Exn) w0 :
  client_getattr (root_segment name) w = (inl e, w0) ->
  list_ fuel name kwargs w =
  mkRun [] [EClientGetAttr (root_segment name)] (Raise e) w0.
Proof.
  intros Hroot. unfold list_. apply bind_Raise. apply lib_Raise. exact Hroot.
Qed.

(** X2. When the first request to the root accessor raises, [list] raises
    the same error with no record yielded, and that request is its last
    call: nothing is tried again. *)
Theorem list_first_get_raises (fuel : nat) (name : string) (kwargs : Params)
    w request w0 (e : Exn) w1 :
  kwargs !! "request" = None ->
  client_getattr (root_segment name) w = (inr request, w0) ->
  acc_get request (list_params name kwargs) w0 = (inl e, w1) ->
  list_ (S fuel) name kwargs w =
  mkRun []
        [EClientGetAttr (root_segment name); EGet request (list_params name kwargs)]
        (Raise e) w1.
Proof.
  intros Hreq Hroot Hget.
  rewrite (list_unfold _ _ _ _ _ _ Hreq Hroot). cbv zeta. cbn [paginator].
  erewrite bind_Raise; [reflexivity|]. apply lib_Raise. exact Hget.
Qed.

Lemma drain_until_drains_until (fuel : nat) (a : Accessor) w ps e w' :
  drain_until fuel a w = Some (ps, e, w') -> drains_until a w ps e w'.
Proof.
  revert w ps e w'. induction fuel as [|fuel IH]; intros w ps e w'; simpl;
    [discriminate|].
  destruct (acc_records_remaining a w) eqn:Hflag; [|discriminate].
  destruct (acc_get_next a w) as [[e1|rows] w1] eqn:Hnext.
  - intros [= <- <- <-]. by apply drains_until_fail.
  - destruct (drain_until fuel a w1) as [[[ps1 e1] w2]|] eqn:Hrest; [|discriminate].
    intros [= <- <- <-]. eapply drains_until_more; eauto.
Qed.

Lemma while_remaining_drains_until (a : Accessor) w ps e w' :
  drains_until a w ps e w' ->
  forall fuel, (List.length ps < fuel)%nat ->
  while_remaining fuel a w =
  mkRun (records ps) (replicate (S (List.length ps)) (EGetNext a)) (Raise e) w'.
Proof.
  induction 1 as [w e w1 Hflag Hnext | w rows w1 ps e w2 Hflag Hnext _ IH];
    intros fuel Hfuel; (destruct fuel as [|fuel]; simpl in Hfuel; [lia|]).
  - simpl. rewrite Hflag. apply bind_Raise. apply lib_Raise. exact Hnext.
  - simpl. rewrite Hflag.
    erewrite bind_Return; [| apply lib_Return; exact Hnext |].
    2:{ erewrite bind_Return; [reflexivity | reflexivity |].
        apply IH. lia. }
    reflexivity.
Qed.

(** X3. For a name without a dot, when a later [get_next] raises, [list]
    has yielded the records of all the pages served before, in order, and
    then raises that error; the failing [get_next] is its last call. *)
Theorem list_simple_name_error_midway (fuel : nat) (name : string) (kwargs : Params)
    w request w0 first w1 ps (e : Exn) w2 :
  has_char dot name = false ->
  kwargs !! "nested_names" = None ->
  kwargs !! "request" = None ->
  client_getattr name w = (inr request, w0) ->
  acc_get request (<["per_page" := VInt DEFAULT_ITEMS_PER_PAGE]> kwargs) w0 =
    (inr first, w1) ->
  drains_until request w1 ps e w2 ->
  (List.length ps < fuel)%nat ->
  list_ (S fuel) name kwargs w =
  mkRun (first ++ records ps)
        (EClientGetAttr name
         :: EGet request (<["per_page" := VInt DEFAULT_ITEMS_PER_PAGE]> kwargs)
         :: replicate (S (List.length ps)) (EGetNext request))
        (Raise e) w2.
Proof.
  intros Hdot Hnested Hreq Hroot Hget Hdrain Hfuel.
  rewrite <- (root_segment_simple _ Hdot) in Hroot.
  rewrite (list_unfold _ _ _ _ _ _ Hreq Hroot).
  rewrite (list_params_simple _ _ Hdot), (root_segment_simple _ Hdot).
  cbv zeta. cbn [paginator].
  rewrite lookup_insert_ne by discriminate. rewrite Hnested.
  erewrite bind_silent; cycle 1.
  - apply lib_Return. exact Hget.
  - eapply bind_Return; [reflexivity|].
    apply (while_remaining_drains_until _ _ _ _ _ Hdrain). exact Hfuel.
  - reflexivity.
Qed.

(** X4. The caller cannot set the page size: with a [per_page] keyword of any
    value, [list] runs exactly as without it. *)
Theorem list_per_page_overwritten (fuel : nat) (name : string) (kwargs : Params)
    (v : Value) :
  list_ fuel name (<["per_page" := v]> kwargs) = list_ fuel name kwargs.
Proof.
  assert (list_params name (<["per_page" := v]> kwargs) = list_params name kwargs)
    as Hparams by (unfold list_params; by rewrite insert_insert_eq).
  unfold list_. cbv zeta. rewrite Hparams. reflexivity.
Qed.

(** X5. A dotted name is shorthand for the root name with the relation names
    under the keyword [nested_names]: [list] runs the same on both. *)
Theorem list_dotted_name_alias (fuel : nat) (name root rel : string)
    (chain : list string) (kwargs : Params) :
  split_on dot name = root :: rel :: chain ->
  list_ fuel root (<["nested_names" := VList (rel :: chain)]> kwargs) =
  list_ fuel name kwargs.
Proof.
  intros Hsplit.
  assert (has_char dot root = false) as Hroot.
  { pose proof (split_on_head_no_sep dot name) as H. by rewrite Hsplit in H. }
  assert (root_segment name = root) as Hseg by (unfold root_segment; by rewrite Hsplit).
  assert (list_params root (<["nested_names" := VList (rel :: chain)]> kwargs) =
          list_params name kwargs) as Hparams.
  { rewrite (list_params_simple _ _ Hroot). unfold list_params. rewrite Hsplit.
    simpl. by apply insert_insert_ne. }
  unfold list_. cbv zeta.
  rewrite Hparams, Hseg, (root_segment_simple _ Hroot). reflexivity.
Qed.

(** X6. On a dotted name a [nested_names] keyword of the caller is replaced
    by the relation names of the name: [list] runs as without the keyword. *)
Theorem list_nested_names_overwritten (fuel : nat) (name : string) (kwargs : Params)
    (v : Value) :
  has_char dot name = true ->
  list_ fuel name (<["nested_names" := v]> kwargs) = list_ fuel name kwargs.
Proof.
  intros Hdot.
  destruct (list_params_compound name kwargs Hdot) as [_ Hparams].
  destruct (list_params_compound name (<["nested_names" := v]> kwargs) Hdot)
    as [_ Hparams'].
  assert (list_params name (<["nested_names" := v]> kwargs) = list_params name kwargs)
    as Heq.
  { rewrite Hparams, Hparams'.
    rewrite (insert_insert_ne kwargs "per_page" "nested_names") by discriminate.
    by rewrite insert_insert_eq. }
  unfold list_. cbv zeta. rewrite Heq. reflexivity.
Qed.

(** X7. A keyword named [request] collides with the first parameter of
    [paginator]: [list] raises [TypeError] once the root accessor is
    resolved, before any request to it. *)
Theorem list_request_keyword (fuel : nat) (name : string) (kwargs : Params)
    (v : Value) w request w0 :
  kwargs !! "request" = Some v ->
  client_getattr (root_segment name) w = (inr request, w0) ->
  list_ fuel name kwargs w =
  mkRun [] [EClientGetAttr (root_segment name)]
        (Raise (TypeError "paginator() got multiple values for argument 'request'"))
        w0.
Proof.
  intros Hreq Hroot.
  assert (list_params name kwargs !! "request" = Some v) as Hparams.
  { unfold list_params.
    destruct (py_tail (split_on dot name)); rewrite ?lookup_insert_ne by discriminate;
      exact Hreq. }
  unfold list_. cbv zeta. rewrite Hparams.
  erewrite bind_silent; cycle 1.
  - apply lib_Return. exact Hroot.
  - apply bind_Raise. reflexivity.
  - reflexivity.
Qed.

(** ** The scoping calls *)

Lemma scoped_ids_app (tr tr' : list Event) :
  scoped_ids (tr ++ tr') = scoped_ids tr ++ scoped_ids tr'.
Proof. apply omap_app. Qed.

Lemma scoped_ids_get_next (n : nat) (a : Accessor) :
  scoped_ids (replicate n (EGetNext a)) = [].
Proof. induction n; simpl; auto. Qed.

(** The loop over the parent records makes one scoping call per record, with
    the record's [id], in the order of the records. *)
Lemma for_each_descend_ids (fuel : nat) (request : Accessor) (params : Params)
    (nested_names : Value) (rel : string) rows w kids w' :
  descends request params rel rows w kids w' ->
  params !! "object_id" = None ->
  py_first nested_names = inr rel ->
  Forall (fun pages => (List.length pages <= fuel)%nat) kids ->
  exists tr,
    for_each rows (descend (paginator fuel) request params nested_names) w =
    mkRun (concat (map records kids)) tr (Return tt) w' /\
    scoped_ids tr = omap (fun row : Row => row !! "id") rows.
Proof.
  intros Hdesc Hoid Hrel.
  induction Hdesc as [w | row rows object_id scoped child pages kids
                           w w1 w2 w3 w4 Hid Hcall Hattr Hserves _ IH];
    intros Hfuel.
  - exists []. split; reflexivity.
  - apply Forall_cons in Hfuel as [Hpages Hkids].
    destruct (IH Hkids) as (tr & Htr & Hids).
    eexists. split.
    + simpl. eapply bind_Return; [|exact Htr].
      unfold descend, py_getitem. rewrite Hid, Hoid, Hrel. simpl.
      eapply bind_silent; [reflexivity|].
      eapply bind_silent; [reflexivity|].
      eapply bind_silent; [apply lib_Return; exact Hcall|].
      eapply bind_silent; [reflexivity|].
      eapply bind_silent; [apply lib_Return; exact Hattr|].
      apply paginator_flat; [apply lookup_empty | exact Hserves | exact Hpages].
    + rewrite !scoped_ids_app. simpl. rewrite scoped_ids_get_next, Hid, Hids.
      reflexivity.
Qed.

(** When a parent record has no [id], the loop stops there with [KeyError]:
    the children of the records before it are out, and no call is made for
    it or for the records after it. *)
Lemma for_each_descend_no_id (fuel : nat) (request : Accessor) (params : Params)
    (nested_names : Value) (rel : string) before (row : Row) after w kids w' :
  descends request params rel before w kids w' ->
  row !! "id" = None ->
  params !! "object_id" = None ->
  py_first nested_names = inr rel ->
  Forall (fun pages => (List.length pages <= fuel)%nat) kids ->
  exists tr,
    for_each (before ++ row :: after)
             (descend (paginator fuel) request params nested_names) w =
    mkRun (concat (map records kids)) tr (Raise (KeyError "id")) w' /\
    scoped_ids tr = omap (fun row : Row => row !! "id") before.
Proof.
  intros Hdesc Hnoid Hoid Hrel.
  induction Hdesc as [w | row1 rows object_id scoped child pages kids
                           w w1 w2 w3 w4 Hid Hcall Hattr Hserves _ IH];
    intros Hfuel.
  - exists []. split; [|reflexivity].
    simpl. apply bind_Raise.
    unfold descend, py_getitem. rewrite Hnoid. apply bind_Raise. reflexivity.
  - apply Forall_cons in Hfuel as [Hpages Hkids].
    destruct (IH Hkids) as (tr & Htr & Hids).
    eexists. split.
    + simpl. eapply bind_Return; [|exact Htr].
      unfold descend, py_getitem. rewrite Hid, Hoid, Hrel. simpl.
      eapply bind_silent; [reflexivity|].
      eapply bind_silent; [reflexivity|].
      eapply bind_silent; [apply lib_Return; exact Hcall|].
      eapply bind_silent; [reflexivity|].
      eapply bind_silent; [apply lib_Return; exact Hattr|].
      apply paginator_flat; [apply lookup_empty | exact Hserves | exact Hpages].
    + rewrite !scoped_ids_app. simpl. rewrite scoped_ids_get_next, Hid, Hids.
      reflexivity.
Qed.

Lemma descends_ids_length (request : Accessor) (params : Params) (rel : string)
    rows w kids w' :
  descends request params rel rows w kids w' ->
  List.length (omap (fun row : Row => row !! "id") rows) = List.length rows.
Proof.
  induction 1 as [|row rows object_id scoped child pages kids w w1 w2 w3 w4
                   Hid _ _ _ _ IH]; [reflexivity|].
  cbn [omap list_omap]. rewrite Hid. cbn [List.length]. by rewrite IH.
Qed.

Lemma list_params_two_segments (name root rel : string) (kwargs : Params) :
  split_on dot name = [root; rel] ->
  root_segment name = root /\
  list_params name kwargs !! "nested_names" = Some (VList [rel]) /\
  (kwargs !! "object_id" = None ->
   delete "nested_names" (list_params name kwargs) !! "object_id" = None).
Proof.
  intros Hsplit. unfold root_segment, list_params. rewrite Hsplit. simpl.
  split; [reflexivity|]. split; [apply lookup_insert_eq|].
  intros Hoid. rewrite lookup_delete_ne by discriminate.
  by rewrite !lookup_insert_ne.
Qed.

(** X8. For a name [root.rel], [list] scopes the root accessor once for each
    record of the first parent page, with the record's [id], in page order,
    and for no record of the later parent pages. *)
Theorem list_scopes_first_page_parents (fuel : nat) (name root rel : string)
    (kwargs : Params) w request w0 parents w1 kids w2 ps w3 :
  split_on dot name = [root; rel] ->
  kwargs !! "request" = None ->
  kwargs !! "object_id" = None ->
  client_getattr root w = (inr request, w0) ->
  acc_get request (list_params name kwargs) w0 = (inr parents, w1) ->
  descends request (delete "nested_names" (list_params name kwargs)) rel
           parents w1 kids w2 ->
  drains request w2 ps w3 ->
  Forall (fun pages => (List.length pages < fuel)%nat) kids ->
  (List.length ps < fuel)%nat ->
  scoped_ids (trace (list_ fuel name kwargs w)) =
    omap (fun row : Row => row !! "id") parents /\
  List.length (scoped_ids (trace (list_ fuel name kwargs w))) = List.length parents.
Proof.
  intros Hsplit Hreq Hoid Hroot Hget Hdesc Hdrain Hfuel Hps.
  destruct (list_params_two_segments name root rel kwargs Hsplit)
    as (Hseg & Hnested & Hobj).
  rewrite <- Hseg in Hroot.
  rewrite (list_unfold _ _ _ _ _ _ Hreq Hroot). cbv zeta. cbn [trace].
  destruct fuel as [|fuel]; [lia|].
  destruct (for_each_descend_ids fuel request _ (VList [rel]) rel _ _ _ _ Hdesc)
    as (tr & Htr & Hids); [by apply Hobj | reflexivity | |].
  { eapply Forall_impl; [exact Hfuel|]. simpl. intros; lia. }
  assert (paginator (S fuel) request (list_params name kwargs) w0 =
          mkRun (concat (map records kids) ++ records ps)
                ([EGet request (list_params name kwargs)]
                 ++ (tr ++ replicate (List.length ps) (EGetNext request)))
                (Return tt) w3) as Hrun.
  { cbn [paginator]. rewrite Hnested.
    eapply bind_silent; [apply lib_Return; exact Hget|].
    eapply bind_Return; [|apply (while_remaining_drains _ _ _ _ Hdrain); lia].
    simpl.
    change tr with ([] ++ ([] ++ tr)).
    eapply bind_silent; [reflexivity|].
    eapply bind_silent; [reflexivity|].
    exact Htr. }
  rewrite Hrun. cbn [trace].
  assert (scoped_ids
            (EClientGetAttr (root_segment name)
             :: [EGet request (list_params name kwargs)]
                ++ tr ++ replicate (List.length ps) (EGetNext request)) =
          omap (fun row : Row => row !! "id") parents) as Hall.
  { change (scoped_ids (?ev :: ?l)) with (scoped_ids l).
    rewrite !scoped_ids_app, scoped_ids_get_next, app_nil_r. exact Hids. }
  rewrite Hall. split; [reflexivity|].
  apply (descends_ids_length _ _ _ _ _ _ _ Hdesc).
Qed.

(** X9. For a name [root.rel], when a record of the first parent page has no
    [id], [list] yields the children of the records before it and then
    raises [KeyError]: no call is made for that record or for any record
    after it. *)
Theorem list_parent_without_id (fuel : nat) (name root rel : string)
    (kwargs : Params) w request w0 before (row : Row) after w1 kids w2 :
  split_on dot name = [root; rel] ->
  kwargs !! "request" = None ->
  kwargs !! "object_id" = None ->
  client_getattr root w = (inr request, w0) ->
  acc_get request (list_params name kwargs) w0 = (inr (before ++ row :: after), w1) ->
  descends request (delete "nested_names" (list_params name kwargs)) rel
           before w1 kids w2 ->
  row !! "id" = None ->
  Forall (fun pages => (List.length pages < fuel)%nat) kids ->
  (0 < fuel)%nat ->
  yielded (list_ fuel name kwargs w) = concat (map records kids) /\
  outcome (list_ fuel name kwargs w) = Raise (KeyError "id") /\
  final (list_ fuel name kwargs w) = w2 /\
  scoped_ids (trace (list_ fuel name kwargs w)) =
    omap (fun row : Row => row !! "id") before.
Proof.
  intros Hsplit Hreq Hoid Hroot Hget Hdesc Hnoid Hfuel Hpos.
  destruct (list_params_two_segments name root rel kwargs Hsplit)
    as (Hseg & Hnested & Hobj).
  rewrite <- Hseg in Hroot.
  rewrite (list_unfold _ _ _ _ _ _ Hreq Hroot). cbv zeta.
  cbn [yielded trace outcome final].
  destruct fuel as [|fuel]; [lia|].
  destruct (for_each_descend_no_id fuel request _ (VList [rel]) rel before row after
              _ _ _ Hdesc Hnoid) as (tr & Htr & Hids);
    [by apply Hobj | reflexivity | |].
  { eapply Forall_impl; [exact Hfuel|]. simpl. intros; lia. }
  assert (paginator (S fuel) request (list_params name kwargs) w0 =
          mkRun (concat (map records kids))
                ([EGet request (list_params name kwargs)] ++ tr)
                (Raise (KeyError "id")) w2) as Hrun.
  { cbn [paginator]. rewrite Hnested.
    eapply bind_silent; [apply lib_Return; exact Hget|].
    apply bind_Raise. simpl.
    change tr with ([] ++ ([] ++ tr)).
    eapply bind_silent; [reflexivity|].
    eapply bind_silent; [reflexivity|].
    exact Htr. }
  rewrite Hrun. cbn [yielded trace outcome final].
  repeat split. simpl. exact Hids.
Qed.

(** ** A flag that never goes down *)

Lemma while_remaining_endless (a : Accessor) :
  (forall w, acc_records_remaining a w = true) ->
  (forall w, exists rows w', acc_get_next a w = (inr rows, w')) ->
  forall fuel w,
    outcome (while_remaining fuel a w) = OutOfFuel /\
    trace (while_remaining fuel a w) = replicate fuel (EGetNext a).
Proof.
  intros Hflag Hnext. induction fuel as [|fuel IH]; intros w; simpl; rewrite Hflag.
  - split; reflexivity.
  - destruct (Hnext w) as (rows & w' & Hrows).
    destruct (IH w') as [Hout Htrace].
    rewrite outcome_bind, trace_bind.
    rewrite (lib_Return _ _ _ _ _ Hrows). cbn [outcome trace final].
    rewrite outcome_bind, trace_bind. cbn [yield_from outcome trace final].
    rewrite Hout, Htrace. split; reflexivity.
Qed.

(** X10. The traversal has no page limit of its own: when the accessor of a
    simple entity never lowers [records_remaining] and [get_next] always
    answers, [list] neither returns nor raises, however long it runs, and
    every further step is one more [get_next]. *)
Theorem list_never_stops (name : string) (kwargs : Params) w request w0 first w1 :
  has_char dot name = false ->
  kwargs !! "nested_names" = None ->
  kwargs !! "request" = None ->
  client_getattr name w = (inr request, w0) ->
  acc_get request (<["per_page" := VInt DEFAULT_ITEMS_PER_PAGE]> kwargs) w0 =
    (inr first, w1) ->
  (forall w', acc_records_remaining request w' = true) ->
  (forall w', exists rows w'', acc_get_next request w' = (inr rows, w'')) ->
  forall fuel,
    outcome (list_ fuel name kwargs w) = OutOfFuel /\
    trace (list_ (S fuel) name kwargs w) =
      EClientGetAttr name
      :: EGet request (<["per_page" := VInt DEFAULT_ITEMS_PER_PAGE]> kwargs)
      :: replicate fuel (EGetNext request).
Proof.
  intros Hdot Hnested Hreq Hroot Hget Hflag Hnext fuel.
  rewrite <- (root_segment_simple _ Hdot) in Hroot.
  rewrite !(list_unfold _ _ _ _ _ _ Hreq Hroot).
  rewrite (list_params_simple _ _ Hdot), (root_segment_simple _ Hdot).
  cbv zeta. cbn [outcome trace].
  assert (forall n,
            outcome (paginator (S n) request
                       (<["per_page" := VInt DEFAULT_ITEMS_PER_PAGE]> kwargs) w0) =
              OutOfFuel /\
            trace (paginator (S n) request
                     (<["per_page" := VInt DEFAULT_ITEMS_PER_PAGE]> kwargs) w0) =
              EGet request (<["per_page" := VInt DEFAULT_ITEMS_PER_PAGE]> kwargs)
              :: replicate n (EGetNext request)) as Hrun.
  { intros n. cbn [paginator].
    rewrite lookup_insert_ne by discriminate. rewrite Hnested.
    destruct (while_remaining_endless request Hflag Hnext n w1) as [Hout Htrace].
    rewrite outcome_bind, trace_bind.
    rewrite (lib_Return _ _ _ _ _ Hget). cbn [outcome trace final].
    rewrite outcome_bind, trace_bind. cbn [yield_from outcome trace final].
    rewrite Hout, Htrace. split; reflexivity. }
  split.
  - destruct fuel as [|fuel]; [reflexivity|]. apply Hrun.
  - f_equal. apply Hrun.
Qed.

End Traversal.

(** * Further properties of the probing *)

Section Probing.
Context {L : HarvestLib}.

Notation "x <- m ;; k" := (bind m (fun x => k))
  (at level 100, m at next level, right associativity).
Notation "m ;;; k" := (bind m (fun _ => k))
  (at level 100, right associativity).

(** The calls of one probe: the attribute of the entity's name and, when that
    is there, a [get] without parameters. *)
Lemma probe_trace_shape (entity : string) w :
  trace (probe entity w) = [EClientGetAttr entity] \/
  exists a, trace (probe entity w) = [EClientGetAttr entity; EGet a ∅].
Proof.
  unfold probe, bind, lib, ret. simpl.
  destruct (client_getattr entity w) as [[e|a] w1]; simpl; [by left|].
  right. exists a. destruct (acc_get a ∅ w1) as [[e|rows] w2]; reflexivity.
Qed.

(** One turn of the loop: the entity is added, or it is warned about and
    left out, or the loop ends with an error; in each case the entity was
    probed, once. *)
Lemma probe_step_cases (accessible : list string) (entity : string) w :
  let r := probe_step accessible entity w in
  probed (trace r) = [entity] /\
  ((outcome r = Return (accessible ++ [entity]) /\ warned (trace r) = []) \/
   (outcome r = Return accessible /\ warned (trace r) = [entity]) \/
   (exists e, outcome r = Raise e)).
Proof.
  cbv zeta. rewrite probe_step_run. cbv zeta.
  pose proof (probe_fuel_free entity w) as Hfree.
  destruct (probe_trace_shape entity w) as [Htr | [a Htr]];
    destruct (outcome (probe entity w)) as [[]|[msg|cls msg]|];
    try congruence; cbn [trace outcome]; rewrite Htr;
    try (split; [reflexivity|]; first [by left | by right; right; eexists]);
    (split; [reflexivity|]);
    destruct (contains PERMISSION_PATTERN msg);
    first [by right; left | by right; right; eexists].
Qed.

Lemma probed_app (tr tr' : list Event) : probed (tr ++ tr') = probed tr ++ probed tr'.
Proof. apply omap_app. Qed.

Lemma warned_app (tr tr' : list Event) : warned (tr ++ tr') = warned tr ++ warned tr'.
Proof. apply omap_app. Qed.

(** What the loop keeps when it comes to its end, and what it asked. *)
Lemma probe_loop_invariants (entities accessible : list string) w :
  let r := probe_loop entities accessible w in
  probed (trace r) `prefix_of` entities /\
  forall accessible',
    outcome r = Return accessible' ->
    probed (trace r) = entities /\
    (exists kept, accessible' = accessible ++ kept /\ kept `sublist_of` entities) /\
    (List.length accessible' + List.length (warned (trace r)) =
     List.length accessible + List.length entities)%nat.
Proof.
  cbv zeta. revert accessible w.
  induction entities as [|entity rest IH]; intros accessible w.
  - simpl. split; [by exists []|]. intros accessible' [= <-].
    split; [reflexivity|]. split; [|lia].
    exists []. by rewrite app_nil_r.
  - cbn [probe_loop]. rewrite trace_bind, outcome_bind.
    destruct (probe_step_cases accessible entity w) as [Hprobed Hcases].
    cbv zeta in Hprobed, Hcases.
    destruct Hcases as [[Hout Hwarn] | [[Hout Hwarn] | [e Hout]]]; rewrite Hout.
    + destruct (IH (accessible ++ [entity])
                   (final (probe_step accessible entity w))) as [Hpre Hret].
      rewrite probed_app, warned_app, Hprobed, Hwarn. split.
      * by apply prefix_cons.
      * intros accessible' Hacc.
        destruct (Hret accessible' Hacc) as (Hall & (kept & -> & Hsub) & Hlen).
        split; [by rewrite Hall|]. split.
        -- exists (entity :: kept). rewrite <- app_assoc. split; [reflexivity|].
           by apply sublist_skip.
        -- rewrite ?length_app in *. simpl in *. rewrite ?length_app in *.
           simpl in *. lia.
    + destruct (IH accessible (final (probe_step accessible entity w))) as [Hpre Hret].
      rewrite probed_app, warned_app, Hprobed, Hwarn. split.
      * by apply prefix_cons.
      * intros accessible' Hacc.
        destruct (Hret accessible' Hacc) as (Hall & (kept & -> & Hsub) & Hlen).
        split; [by rewrite Hall|]. split.
        -- exists kept. split; [reflexivity|]. by apply sublist_cons.
        -- rewrite ?length_app in *. simpl in *. lia.
    + rewrite app_nil_r, Hprobed. split; [|discriminate].
      exists rest. reflexivity.
Qed.

Lemma get_accessible_endpoints_run w :
  get_accessible_endpoints w =
  let r := probe_loop ENTITIES [] w in
  match outcome r with
  | Return accessible =>
      mkRun [] (trace r ++ [ELogInfo accessible]) (Return accessible) (final r)
  | Raise e => mkRun [] (trace r) (Raise e) (final r)
  | OutOfFuel => mkRun [] (trace r) OutOfFuel (final r)
  end.
Proof.
  unfold get_accessible_endpoints, bind, log, ret. cbv zeta.
  rewrite probe_loop_yields_nothing.
  destruct (outcome (probe_loop ENTITIES [] w)); reflexivity.
Qed.

(** X11. Whatever the library answers, the list that
    [get_accessible_endpoints] returns is a sub-list of the catalog: catalog
    entities only, each at most once, in catalog order. *)
Theorem get_accessible_endpoints_sublist (accessible : list string) w :
  outcome (get_accessible_endpoints w) = Return accessible ->
  accessible `sublist_of` ENTITIES.
Proof.
  rewrite get_accessible_endpoints_run. cbv zeta.
  destruct (probe_loop_invariants ENTITIES [] w) as [_ Hret]. cbv zeta in Hret.
  destruct (outcome (probe_loop ENTITIES [] w)) as [acc| |]; try discriminate.
  intros [= <-]. destruct (Hret acc eq_refl) as (_ & (kept & -> & Hsub) & _).
  exact Hsub.
Qed.

(** X12. [get_accessible_endpoints] asks the client for the catalog entities
    in catalog order, each at most once, and stops at the first it does not
    get past: the names asked are a prefix of the catalog, and the whole
    catalog when it returns. *)
Theorem get_accessible_endpoints_probes_in_order w :
  probed (trace (get_accessible_endpoints w)) `prefix_of` ENTITIES /\
  (forall accessible,
     outcome (get_accessible_endpoints w) = Return accessible ->
     probed (trace (get_accessible_endpoints w)) = ENTITIES).
Proof.
  rewrite get_accessible_endpoints_run. cbv zeta.
  destruct (probe_loop_invariants ENTITIES [] w) as [Hpre Hret]. cbv zeta in Hpre, Hret.
  destruct (outcome (probe_loop ENTITIES [] w)) as [acc| |]; cbn [trace outcome].
  - destruct (Hret acc eq_refl) as (Hall & _ & _).
    rewrite !probed_app, Hall.
    change (probed [ELogInfo acc]) with (@nil string). rewrite app_nil_r.
    split; [done|]. reflexivity.
  - split; [exact Hpre | discriminate].
  - split; [exact Hpre | discriminate].
Qed.

(** X13. When [get_accessible_endpoints] returns, every catalog entity is
    accounted for: it is in the returned list or a warning was logged for
    it, and the run ends with the summary of the returned list. *)
Theorem get_accessible_endpoints_accounts (accessible : list string) w :
  outcome (get_accessible_endpoints w) = Return accessible ->
  (List.length accessible + List.length (warned (trace (get_accessible_endpoints w))) =
   List.length ENTITIES)%nat /\
  last (trace (get_accessible_endpoints w)) = Some (ELogInfo accessible).
Proof.
  rewrite get_accessible_endpoints_run. cbv zeta.
  destruct (probe_loop_invariants ENTITIES [] w) as [_ Hret]. cbv zeta in Hret.
  destruct (outcome (probe_loop ENTITIES [] w)) as [acc| |]; try discriminate.
  cbn [trace outcome]. intros [= <-].
  destruct (Hret acc eq_refl) as (_ & _ & Hlen).
  rewrite warned_app.
  change (warned [ELogInfo acc]) with (@nil string). rewrite app_nil_r.
  split; [exact Hlen|].
  apply last_snoc.
Qed.

Lemma get_accessible_endpoints_yields_nothing w :
  yielded (get_accessible_endpoints w) = [].
Proof.
  rewrite get_accessible_endpoints_run. cbv zeta.
  destruct (outcome (probe_loop ENTITIES [] w)); reflexivity.
Qed.

Lemma get_accessible_endpoints_fuel_free w :
  outcome (get_accessible_endpoints w) <> OutOfFuel.
Proof.
  rewrite get_accessible_endpoints_run. cbv zeta.
  pose proof (probe_loop_fuel_free ENTITIES [] w) as Hfree.
  destruct (outcome (probe_loop ENTITIES [] w)); cbn [outcome]; congruence.
Qed.

(** [health_check] is one run of [get_accessible_endpoints] and a case
    distinction on how that ended. *)
Lemma health_check_run w :
  health_check w =
  mkRun (yielded (get_accessible_endpoints w)) (trace (get_accessible_endpoints w))
        (health_check_answer (outcome (get_accessible_endpoints w)))
        (final (get_accessible_endpoints w)).
Proof.
  unfold health_check, try_except_HTTPError, bind, ret. cbv zeta.
  generalize (get_accessible_endpoints w). intros [ys tr o wf].
  destruct o as [[|x l]|[msg|cls msg]|]; cbn [yielded trace outcome final];
    rewrite ?app_nil_r; reflexivity.
Qed.

(** X14. [health_check] does nothing of its own to the outside: its calls,
    in order, and the world it leaves are those of the one
    [get_accessible_endpoints] it runs. *)
Theorem health_check_same_calls w :
  trace (health_check w) = trace (get_accessible_endpoints w) /\
  final (health_check w) = final (get_accessible_endpoints w) /\
  yielded (health_check w) = [].
Proof.
  pose proof (health_check_run w) as Hrun.
  pose proof (get_accessible_endpoints_yields_nothing w) as Hy.
  revert Hrun Hy.
  generalize (get_accessible_endpoints w). generalize (health_check w).
  intros r r' -> Hy. auto.
Qed.

(** X15. [health_check] answers [(True, None)] or [(False, message)]: a
    positive answer has no message and a negative one always has one; what it
    raises is never an [HTTPError]. *)
Theorem health_check_answer_shape w :
  match outcome (health_check w) with
  | Return (true, None) => True
  | Return (false, Some _) => True
  | Raise (PyError _ _) => True
  | _ => False
  end.
Proof.
  pose proof (health_check_run w) as Hrun.
  pose proof (get_accessible_endpoints_fuel_free w) as Hfree.
  revert Hrun Hfree.
  generalize (get_accessible_endpoints w). generalize (health_check w).
  intros r r' -> Hfree. cbn [outcome].
  destruct (outcome r') as [[|x l]|[msg|cls msg]|]; simpl; auto.
Qed.

Lemma filter_negb_nil {A} (f : A -> bool) (l : list A) :
  List.filter (fun x => negb (f x)) l = [] <-> forallb f l = true.
Proof.
  induction l as [|x l IH]; simpl; [tauto|].
  destruct (f x); simpl; [exact IH|]. split; discriminate.
Qed.

(** X16. When the probe of every catalog entity either succeeds or is
    denied, [health_check] answers [(False, fixed message)] if every entity
    is denied and [(True, None)] as soon as one is not. *)
Theorem health_check_by_denials (denied : string -> bool) w :
  (forall entity w', In entity ENTITIES ->
     if denied entity then denies entity w' else admits entity w') ->
  outcome (health_check w) =
  if forallb denied ENTITIES
  then Return (false, Some NO_ENDPOINTS_MESSAGE)
  else Return (true, None).
Proof.
  intros Hprobe.
  pose proof (probe_loop_filter denied ENTITIES Hprobe [] w) as Hloop.
  pose proof (get_accessible_endpoints_run w) as Hgae. cbv zeta in Hgae.
  pose proof (health_check_run w) as Hrun.
  pose proof (filter_negb_nil denied ENTITIES) as Hnil.
  revert Hloop Hgae Hrun Hnil.
  generalize (health_check w). generalize (get_accessible_endpoints w).
  generalize (probe_loop ENTITIES [] w).
  generalize (forallb denied ENTITIES).
  generalize (List.filter (fun entity => negb (denied entity)) ENTITIES).
  intros kept all r r' r'' Hloop -> -> Hnil. cbn [outcome]. rewrite Hloop.
  cbn [app outcome health_check_answer].
  destruct kept as [|x l].
  - rewrite (proj1 Hnil eq_refl). reflexivity.
  - destruct all; [|reflexivity].
    discriminate (proj2 Hnil eq_refl).
Qed.

End Probing.

(** * Names and messages *)

Lemma prefix_spec (s1 s2 : string) :
  String.prefix s1 s2 = true <-> exists post, s2 = s1 +:+ post.
Proof.
  revert s2. induction s1 as [|a s1 IH]; intros [|b s2]; simpl.
  - split; [intros _; by exists "" | reflexivity].
  - split; [intros _; by exists (String b s2) | reflexivity].
  - split; [discriminate | intros [post [=]]].
  - destruct (ascii_dec a b) as [->|Hne].
    + rewrite IH. split; intros [post Hpost]; exists post.
      * change (String b s2 = String b (s1 +:+ post)). by rewrite Hpost.
      * change (String b s2 = String b (s1 +:+ post)) in Hpost. by injection Hpost.
    + split; [discriminate|]. intros [post Hpost].
      change (String b s2 = String a (s1 +:+ post)) in Hpost.
      injection Hpost as ? ?. by subst.
Qed.

(** X17. The permission test is the substring test of Python's [in]: a
    message passes exactly when the pattern occurs in it at some offset. *)
Theorem contains_spec (needle hay : string) :
  contains needle hay = true <-> exists pre post, hay = pre +:+ needle +:+ post.
Proof.
  induction hay as [|c hay IH]; cbn [contains]; rewrite orb_true_iff.
  - split.
    + intros [Hpre | [=]]. apply prefix_spec in Hpre as [post ->]. by exists "", post.
    + intros ([|c pre] & post & H); [|discriminate].
      left. apply prefix_spec. by exists post.
  - split.
    + intros [Hpre | Hrest].
      * apply prefix_spec in Hpre as [post ->]. by exists "", post.
      * apply IH in Hrest as (pre & post & ->). by exists (String c pre), post.
    + intros ([|c' pre] & post & H).
      * left. apply prefix_spec. by exists post.
      * right. apply IH.
        change (String c hay = String c' (pre +:+ needle +:+ post)) in H.
        injection H as -> ->. by exists pre, post.
Qed.

Lemma split_on_nonempty (sep : ascii) (s : string) : split_on sep s <> [].
Proof.
  destruct s as [|c s]; simpl; [discriminate|].
  destruct (Ascii.eqb c sep); [discriminate|].
  destruct (split_on sep s); discriminate.
Qed.

(** X18. Splitting a name on the dots loses nothing: the segments have no
    dot, and joined with dots they give the name back (so a name is its root
    segment followed by its relation names). *)
Theorem split_on_dot_join (s : string) :
  String.concat "." (split_on dot s) = s /\
  Forall (fun part => has_char dot part = false) (split_on dot s).
Proof.
  induction s as [|c s [IHjoin IHparts]]; cbn [split_on].
  - split; [reflexivity | by repeat constructor].
  - pose proof (split_on_nonempty dot s) as Hne.
    destruct (Ascii.eqb c dot) eqn:Hc.
    + apply Ascii.eqb_eq in Hc as ->. split; [|by constructor].
      destruct (split_on dot s) as [|part parts]; [done|].
      change (String dot (String.concat "." (part :: parts)) = String dot s).
      by rewrite IHjoin.
    + destruct (split_on dot s) as [|part parts]; [done|]. split.
      * destruct parts as [|part' parts].
        -- change (String c (String.concat "." [part]) = String c s).
           by rewrite IHjoin.
        -- change (String c (String.concat "." (part :: part' :: parts)) = String c s).
           by rewrite IHjoin.
      * apply Forall_cons in IHparts as [Hpart Hparts].
        constructor; [|exact Hparts]. cbn [has_char]. by rewrite Hc.
Qed.

(** * [streams] *)

Section Streams.
Context {L : HarvestLib}.

Lemma filter_sublist_of {A} (f : A -> bool) (l : list A) :
  List.filter f l `sublist_of` l.
Proof.
  induction l as [|x l IH]; simpl; [constructor|].
  destruct (f x); by constructor.
Qed.

Lemma py_in_In (x : string) (l : list string) : py_in x l = true <-> In x l.
Proof.
  unfold py_in. rewrite existsb_exists. split.
  - intros (y & Hy & Heq). apply String.eqb_eq in Heq. by subst.
  - intros Hx. exists x. split; [exact Hx | apply String.eqb_refl].
Qed.

Lemma streams_run (declared : list AirbyteStream) w :
  streams declared w =
  mkRun (yielded (get_accessible_endpoints w)) (trace (get_accessible_endpoints w))
        (match outcome (get_accessible_endpoints w) with
         | Return accessible =>
             Return (List.filter (fun stream => py_in (name stream) accessible) declared)
         | Raise e => Raise e
         | OutOfFuel => OutOfFuel
         end)
        (final (get_accessible_endpoints w)).
Proof.
  unfold streams, bind, ret. generalize (get_accessible_endpoints w).
  intros [ys tr o wf]. destruct o; cbn [yielded trace outcome final];
    rewrite ?app_nil_r; reflexivity.
Qed.

(** X19. Whatever the library answers, the streams that [streams] gives are
    a sub-list of the declared ones, in their order, and each of them is
    named after a catalog entity. *)
Theorem streams_sublist (declared result : list AirbyteStream) w :
  outcome (streams declared w) = Return result ->
  result `sublist_of` declared /\
  Forall (fun stream => In (name stream) ENTITIES) result.
Proof.
  pose proof (streams_run declared w) as Hrun.
  assert (forall accessible,
            outcome (get_accessible_endpoints w) = Return accessible ->
            accessible `sublist_of` ENTITIES) as Hsub.
  { intros accessible Hacc.
    pose proof (get_accessible_endpoints_run w) as Hgae. cbv zeta in Hgae.
    destruct (probe_loop_invariants ENTITIES [] w) as [_ Hret]. cbv zeta in Hret.
    revert Hacc Hgae Hret. generalize (get_accessible_endpoints w).
    generalize (probe_loop ENTITIES [] w). intros r r' Hacc -> Hret.
    destruct (outcome r) as [acc| |] eqn:Hout; try discriminate.
    cbn [outcome] in Hacc. injection Hacc as <-.
    destruct (Hret acc eq_refl) as (_ & (kept & -> & Hkept) & _). exact Hkept. }
  revert Hrun Hsub. generalize (get_accessible_endpoints w).
  generalize (streams declared w). intros r r' -> Hsub. cbn [outcome].
  destruct (outcome r') as [accessible| |]; try discriminate.
  intros [= <-]. split; [apply filter_sublist_of|].
  apply List.Forall_forall. intros stream Hstream.
  apply filter_In in Hstream as [_ Hname]. apply py_in_In in Hname.
  specialize (Hsub accessible eq_refl).
  apply list_elem_of_In. eapply elem_of_sublist; [|exact Hsub].
  by apply list_elem_of_In.
Qed.

(** X20. A fatal [HTTPError] of the probing reaches the caller of [streams]
    as it is, with no stream given, while [health_check] turns the same
    error into [(False, message)]. *)
Theorem streams_raises_where_health_check_answers (declared : list AirbyteStream)
    (msg : string) w :
  outcome (get_accessible_endpoints w) = Raise (HTTPError msg) ->
  outcome (streams declared w) = Raise (HTTPError msg) /\
  outcome (health_check w) = Return (false, Some msg).
Proof.
  pose proof (streams_run declared w) as Hstreams.
  pose proof (health_check_run w) as Hcheck.
  revert Hstreams Hcheck. generalize (get_accessible_endpoints w).
  generalize (streams declared w). generalize (health_check w).
  intros r r' r'' -> -> Hout. cbn [outcome]. rewrite Hout. split; reflexivity.
Qed.

Lemma py_in_filter (f : string -> bool) (x : string) (l : list string) :
  py_in x (List.filter f l) = py_in x l && f x.
Proof.
  apply eq_true_iff_eq. rewrite andb_true_iff, !py_in_In, filter_In. tauto.
Qed.

(** X21. When the probe of every catalog entity either succeeds or is
    denied, [streams] gives the declared streams that are named after a
    catalog entity that is not denied, in the declared order. *)
Theorem streams_by_denials (denied : string -> bool) (declared : list AirbyteStream) w :
  (forall entity w', In entity ENTITIES ->
     if denied entity then denies entity w' else admits entity w') ->
  outcome (streams declared w) =
  Return (List.filter
            (fun stream => py_in (name stream) ENTITIES && negb (denied (name stream)))
            declared).
Proof.
  intros Hprobe.
  pose proof (probe_loop_filter denied ENTITIES Hprobe [] w) as Hloop.
  pose proof (get_accessible_endpoints_run w) as Hgae. cbv zeta in Hgae.
  pose proof (streams_run declared w) as Hrun.
  assert (forall stream : AirbyteStream,
            py_in (name stream)
                  (List.filter (fun entity => negb (denied entity)) ENTITIES) =
            py_in (name stream) ENTITIES && negb (denied (name stream))) as Hin
    by (intros; apply py_in_filter).
  revert Hloop Hgae Hrun Hin.
  generalize (streams declared w). generalize (get_accessible_endpoints w).
  generalize (probe_loop ENTITIES [] w).
  generalize (List.filter (fun entity => negb (denied entity)) ENTITIES).
  generalize ENTITIES.
  intros entities kept r r' r'' Hloop -> -> Hin. cbn [outcome]. rewrite Hloop.
  cbn [app outcome]. f_equal. apply filter_ext. exact Hin.
Qed.

End Streams.

(** * [HarvestClient] *)

Lemma HarvestClient_init_ok (uris : Uris) (relations : gmap string (gmap string string)) :
  related uris !! "applications" = Some relations ->
  HarvestClient_init uris =
  (inr tt,
   {| direct := extend_direct (direct uris);
      related :=
        extend_related
          (<["applications" :=
               <["demographics_answers" :=
                   list_only "applications/{rel_id}/demographics/answers"]> relations]>
             (related uris)) |}).
Proof. intros H. unfold HarvestClient_init. cbn [related direct]. by rewrite H. Qed.

Lemma HarvestClient_init_inv (uris uris' : Uris) :
  HarvestClient_init uris = (inr tt, uris') ->
  exists relations,
    related uris !! "applications" = Some relations /\
    uris' =
    {| direct := extend_direct (direct uris);
       related :=
         extend_related
           (<["applications" :=
                <["demographics_answers" :=
                    list_only "applications/{rel_id}/demographics/answers"]> relations]>
              (related uris)) |}.
Proof.
  unfold HarvestClient_init. cbn [related direct].
  destruct (related uris !! "applications") as [relations|]; [|discriminate].
  intros [= <-]. by exists relations.
Qed.

Lemma prefix_demographics_ne (name key : string) :
  String.prefix "demographics" name = false ->
  String.prefix "demographics" key = true ->
  key <> name.
Proof. intros Hname Hkey ->. congruence. Qed.

(** X22. The constructor only adds to the tables of the base library: a
    direct endpoint or a parent whose name does not start with
    [demographics] keeps its entry, and [applications] keeps every relation
    it had, next to the new [demographics_answers]. *)
Theorem HarvestClient_init_keeps_base (uris uris' : Uris) :
  HarvestClient_init uris = (inr tt, uris') ->
  (forall name, String.prefix "demographics" name = false ->
     direct uris' !! name = direct uris !! name) /\
  (forall parent, String.prefix "demographics" parent = false ->
     parent <> "applications" ->
     related uris' !! parent = related uris !! parent) /\
  (forall rel, rel <> "demographics_answers" ->
     (related uris' !! "applications" ≫= fun relations => relations !! rel) =
     (related uris !! "applications" ≫= fun relations => relations !! rel)) /\
  (related uris' !! "applications" ≫= fun relations => relations !! "demographics_answers") =
    Some (list_only "applications/{rel_id}/demographics/answers").
Proof.
  intros Hinit. destruct (HarvestClient_init_inv _ _ Hinit) as (relations & Happ & ->).
  cbn [direct related]. unfold extend_direct, extend_related.
  split; [|split; [|split]].
  - intros name Hname.
    rewrite !lookup_insert_ne
      by (apply (prefix_demographics_ne name); [exact Hname | reflexivity]).
    reflexivity.
  - intros parent Hparent Hne.
    rewrite !lookup_insert_ne; try done;
      apply (prefix_demographics_ne parent); try exact Hparent; reflexivity.
  - intros rel Hrel.
    rewrite !lookup_insert_ne by discriminate. rewrite lookup_insert_eq, Happ.
    cbn [mbind option_bind]. by rewrite lookup_insert_ne.
  - rewrite !lookup_insert_ne by discriminate. rewrite lookup_insert_eq.
    cbn [mbind option_bind]. by rewrite lookup_insert_eq.
Qed.

(** X23. The constructor goes through exactly when the base tables have the
    parent [applications]; when they do not, it raises [KeyError] with the
    direct endpoints already extended and the relations untouched. *)
Theorem HarvestClient_init_outcome (uris : Uris) :
  ((HarvestClient_init uris).1 = inr tt <-> is_Some (related uris !! "applications")) /\
  (related uris !! "applications" = None ->
   HarvestClient_init uris =
   (inl (KeyError "applications"),
    {| direct := extend_direct (direct uris); related := related uris |})).
Proof.
  unfold HarvestClient_init. cbn [related direct].
  destruct (related uris !! "applications") as [relations|]; cbn [fst].
  - split; [|discriminate]. split; [by eexists | reflexivity].
  - split; [|reflexivity]. split; [discriminate | by intros [? ?]].
Qed.

Lemma has_list_list_only (l : string) : has_list (Some (list_only l)) = true.
Proof. unfold has_list, list_only. by rewrite lookup_insert_eq. Qed.

Lemma has_list_list_retrieve (l r : string) : has_list (Some (list_retrieve l r)) = true.
Proof.
  unfold has_list, list_retrieve. rewrite lookup_insert_ne by discriminate.
  by rewrite lookup_insert_eq.
Qed.

(** The direct endpoints after the constructor: the four new ones have a
    [list] URI, and an endpoint with a [list] URI keeps one. *)
Lemma extend_direct_has_list (d : gmap string (gmap string string)) (name : string) :
  has_list (extend_direct d !! name) =
  if String.eqb name "demographics_answers" then true
  else if String.eqb name "demographics_answer_options" then true
  else if String.eqb name "demographics_questions" then true
  else if String.eqb name "demographics_question_sets" then true
  else has_list (d !! name).
Proof.
  unfold extend_direct.
  rewrite lookup_insert. case_decide as H1.
  { subst name. by rewrite String.eqb_refl, has_list_list_retrieve. }
  replace (String.eqb name "demographics_answers") with false
    by (symmetry; apply String.eqb_neq; congruence).
  rewrite lookup_insert. case_decide as H2.
  { subst name. by rewrite String.eqb_refl, has_list_list_retrieve. }
  replace (String.eqb name "demographics_answer_options") with false
    by (symmetry; apply String.eqb_neq; congruence).
  rewrite lookup_insert. case_decide as H3.
  { subst name. by rewrite String.eqb_refl, has_list_list_only. }
  replace (String.eqb name "demographics_questions") with false
    by (symmetry; apply String.eqb_neq; congruence).
  rewrite lookup_insert. case_decide as H4.
  { subst name. by rewrite String.eqb_refl, has_list_list_retrieve. }
  replace (String.eqb name "demographics_question_sets") with false
    by (symmetry; apply String.eqb_neq; congruence).
  reflexivity.
Qed.

(** The relations of a parent after the constructor. *)
Lemma extend_related_lookup (r : gmap string (gmap string (gmap string string)))
    (relations : gmap string (gmap string string)) (parent rel : string) :
  r !! "applications" = Some relations ->
  has_list
    (extend_related
       (<["applications" :=
            <["demographics_answers" :=
                list_only "applications/{rel_id}/demographics/answers"]> relations]> r)
       !! parent ≫= fun relations => relations !! rel) =
  if String.eqb parent "demographics_answers" then String.eqb rel "answer_options"
  else if String.eqb parent "demographics_question_sets" then String.eqb rel "questions"
  else if String.eqb parent "applications"
       then String.eqb rel "demographics_answers" || has_list (relations !! rel)
  else has_list (r !! parent ≫= fun relations => relations !! rel).
Proof.
  intros Happ. unfold extend_related.
  rewrite lookup_insert. case_decide as H1.
  { subst parent. cbn [mbind option_bind]. rewrite String.eqb_refl.
    rewrite lookup_insert. case_decide as Hrel.
    - subst rel. by rewrite has_list_list_only.
    - rewrite lookup_empty. symmetry. apply String.eqb_neq. congruence. }
  replace (String.eqb parent "demographics_answers") with false
    by (symmetry; apply String.eqb_neq; congruence).
  rewrite lookup_insert. case_decide as H2.
  { subst parent. cbn [mbind option_bind]. rewrite String.eqb_refl.
    rewrite lookup_insert. case_decide as Hrel.
    - subst rel. by rewrite has_list_list_retrieve.
    - rewrite lookup_empty. symmetry. apply String.eqb_neq. congruence. }
  replace (String.eqb parent "demographics_question_sets") with false
    by (symmetry; apply String.eqb_neq; congruence).
  rewrite lookup_insert. case_decide as H3.
  { subst parent. cbn [mbind option_bind]. rewrite String.eqb_refl.
    rewrite lookup_insert. case_decide as Hrel.
    - subst rel. by rewrite has_list_list_only.
    - replace (String.eqb rel "demographics_answers") with false
        by (symmetry; apply String.eqb_neq; congruence).
      reflexivity. }
  replace (String.eqb parent "applications") with false
    by (symmetry; apply String.eqb_neq; congruence).
  reflexivity.
Qed.

Ltac eval_names :=
  repeat match goal with
    | |- context [root_segment ?s] =>
        let v := eval vm_compute in (root_segment s) in change (root_segment s) with v
    | |- context [py_tail (split_on dot ?s)] =>
        let v := eval vm_compute in (py_tail (split_on dot s)) in
        change (py_tail (split_on dot s)) with v
    | |- context [String.eqb ?a ?b] =>
        let v := eval vm_compute in (String.eqb a b) in change (String.eqb a b) with v
    end.

Ltac eval_names_in H :=
  repeat match type of H with
    | context [root_segment ?s] =>
        let v := eval vm_compute in (root_segment s) in
        change (root_segment s) with v in H
    | context [py_tail (split_on dot ?s)] =>
        let v := eval vm_compute in (py_tail (split_on dot s)) in
        change (py_tail (split_on dot s)) with v in H
    end.

(** X24. If the tables of the base library resolve the catalog entities that
    are its own, then after the constructor the tables resolve every catalog
    entity: each root segment is a direct endpoint with a [list] URI and each
    relation segment is a relation of its parent with a [list] URI. *)
Theorem HarvestClient_init_resolves_catalog (uris uris' : Uris) :
  HarvestClient_init uris = (inr tt, uris') ->
  (forall entity, In entity ENTITIES -> is_demographics entity = false ->
     resolves uris entity = true) ->
  forall entity, In entity ENTITIES -> resolves uris' entity = true.
Proof.
  intros Hinit Hbase.
  destruct (HarvestClient_init_inv _ _ Hinit) as (relations & Happ & ->).
  assert (has_list (direct uris !! "applications") = true) as Happlications.
  { pose proof (Hbase "applications" ltac:(apply py_in_In; reflexivity) eq_refl) as H.
    unfold resolves in H. eval_names_in H. cbn [relations_resolve] in H.
    by rewrite andb_true_r in H. }
  intros entity Hin. unfold ENTITIES in Hin. cbn [In] in Hin.
  repeat (destruct Hin as [<-|Hin];
    [ unfold resolves; eval_names; cbn [relations_resolve direct related];
      rewrite ?extend_direct_has_list, ?(extend_related_lookup _ _ _ _ Happ);
      eval_names; cbn [orb andb];
      first
        [ reflexivity
        | rewrite Happlications; reflexivity
        | match goal with
          | |- _ =>
              let go e :=
                (pose proof (Hbase e ltac:(apply py_in_In; reflexivity) eq_refl) as H;
                 unfold resolves in H; eval_names_in H;
                 cbn [relations_resolve] in H;
                 rewrite ?Happ in H; cbn [mbind option_bind] in H;
                 rewrite ?andb_true_r in *; exact H) in
              first [ go "applications" | go "candidates" | go "close_reasons"
                    | go "degrees" | go "departments" | go "job_posts" | go "jobs"
                    | go "offers" | go "scorecards" | go "users" | go "custom_fields"
                    | go "interviews" | go "applications.interviews" | go "sources"
                    | go "rejection_reasons" | go "jobs.openings" | go "job_stages"
                    | go "jobs.stages" ]
          end ]
    |]).
  destruct Hin.
Qed.

(** X25. Running the constructor on tables that it has already extended
    changes nothing: it goes through and leaves the same tables. *)
Theorem HarvestClient_init_idempotent (uris uris' : Uris) :
  HarvestClient_init uris = (inr tt, uris') ->
  HarvestClient_init uris' = (inr tt, uris').
Proof.
  intros Hinit. destruct (HarvestClient_init_inv _ _ Hinit) as (relations & Happ & ->).
  erewrite HarvestClient_init_ok; cycle 1.
  { cbn [related]. unfold extend_related.
    rewrite !lookup_insert_ne by discriminate. apply lookup_insert_eq. }
  cbn [direct related]. f_equal. f_equal.
  - apply map_eq. intros key. unfold extend_direct.
    rewrite !lookup_insert. repeat case_decide; congruence.
  - rewrite insert_insert_eq.
    apply map_eq. intros key. unfold extend_related.
    rewrite !lookup_insert. repeat case_decide; congruence.
Qed.

(** * [_enumerate_methods] *)

Section Methods.
Context {L : HarvestLib}.

Lemma foldl_insert_lookup {V} (f : string -> V) (l : list string)
    (acc : gmap string V) (key : string) :
  foldl (fun m x => <[x := f x]> m) acc l !! key =
  if py_in key l then Some (f key) else acc !! key.
Proof.
  revert acc. induction l as [|x l IH]; intros acc; [reflexivity|].
  cbn [foldl]. rewrite IH. unfold py_in. cbn [existsb].
  destruct (existsb (String.eqb key) l); [by rewrite orb_true_r|].
  rewrite orb_false_r, lookup_insert. case_decide as Hx.
  - subst x. by rewrite String.eqb_refl.
  - replace (String.eqb key x) with false
      by (symmetry; apply String.eqb_neq; congruence).
    reflexivity.
Qed.

(** X26. [_enumerate_methods] has one method for each catalog entity and
    none for any other name, and the method under an entity is [list] bound
    to that very entity: called with keyword arguments (none of them
    [name]), it runs as [list(entity, **kwargs)]. *)
Theorem enumerate_methods_binds_list (entity : string) :
  match _enumerate_methods !! entity with
  | Some method =>
      In entity ENTITIES /\
      forall fuel kwargs,
        kwargs !! "name" = None -> method fuel kwargs = list_ fuel entity kwargs
  | None => ~ In entity ENTITIES
  end.
Proof.
  unfold _enumerate_methods. rewrite foldl_insert_lookup, lookup_empty.
  pose proof (py_in_In entity ENTITIES) as Hin.
  destruct (py_in entity ENTITIES).
  - split; [by apply Hin|]. intros fuel kwargs Hname.
    unfold bound_list. by rewrite Hname.
  - intros H. apply Hin in H. discriminate.
Qed.

End Methods.

(** * Concrete runs for the further properties *)

(** X1 for a name the client does not know. *)
Lemma list_resolution_error_witness :
  list_ (L := Scripted.library Scripted.outage) 3 "missing" ∅ ∅ =
  mkRun (L := Scripted.library Scripted.outage) []
        [@EClientGetAttr (Scripted.library Scripted.outage) (root_segment "missing")]
        (Raise (PyError "AttributeError" "missing")) ∅.
Proof.
  apply (list_resolution_error (L := Scripted.library Scripted.outage)
           3 "missing" ∅ ∅ (PyError "AttributeError" "missing") ∅).
  reflexivity.
Defined.

(** X2 for offers, whose first request fails. *)
Lemma list_first_get_raises_witness :
  list_ (L := Scripted.library Scripted.outage) 3 "offers" ∅ ∅ =
  mkRun (L := Scripted.library Scripted.outage) []
        [@EClientGetAttr (Scripted.library Scripted.outage) (root_segment "offers");
         @EGet (Scripted.library Scripted.outage) "offers" (list_params "offers" ∅)]
        (Raise (HTTPError "502 Bad Gateway")) (<["offers" := []]> ∅).
Proof.
  apply (list_first_get_raises (L := Scripted.library Scripted.outage)
           2 "offers" ∅ ∅ "offers" ∅ (HTTPError "502 Bad Gateway")
           (<["offers" := []]> ∅)).
  - reflexivity.
  - reflexivity.
  - reflexivity.
Defined.

(** X3 for jobs: two pages, then a server error. *)
Lemma list_simple_name_error_midway_witness :
  list_ (L := Scripted.library Scripted.outage) 3 "jobs" ∅ ∅ =
  mkRun (L := Scripted.library Scripted.outage)
        ([Mock.row 1 "j1"; Mock.row 2 "j2"] ++ records [[Mock.row 3 "j3"]])
        (@EClientGetAttr (Scripted.library Scripted.outage) "jobs"
         :: @EGet (Scripted.library Scripted.outage) "jobs"
                  (<["per_page" := VInt DEFAULT_ITEMS_PER_PAGE]> ∅)
         :: replicate (S (List.length [[Mock.row 3 "j3"]]))
                      (@EGetNext (Scripted.library Scripted.outage) "jobs"))
        (Raise (HTTPError "502 Bad Gateway")) (<["jobs" := []]> ∅).
Proof.
  apply (list_simple_name_error_midway (L := Scripted.library Scripted.outage)
           2 "jobs" ∅ ∅ "jobs" ∅ [Mock.row 1 "j1"; Mock.row 2 "j2"]
           (<["jobs" := [inr [Mock.row 3 "j3"]; inl (HTTPError "502 Bad Gateway")]]> ∅)
           [[Mock.row 3 "j3"]] (HTTPError "502 Bad Gateway") (<["jobs" := []]> ∅)).
  - reflexivity.
  - reflexivity.
  - reflexivity.
  - reflexivity.
  - reflexivity.
  - apply (drain_until_drains_until (L := Scripted.library Scripted.outage) 3).
    reflexivity.
  - simpl. lia.
Defined.

(** X5 for [applications.interviews]. *)
Lemma list_dotted_name_alias_witness :
  list_ (L := Mock.library Mock.site) 3 "applications"
        (<["nested_names" := VList ["interviews"]]> ∅) =
  list_ (L := Mock.library Mock.site) 3 "applications.interviews" ∅.
Proof.
  apply (list_dotted_name_alias (L := Mock.library Mock.site)
           3 "applications.interviews" "applications" "interviews" [] ∅).
  reflexivity.
Defined.

(** X6 for [applications.interviews]. *)
Lemma list_nested_names_overwritten_witness :
  list_ (L := Mock.library Mock.site) 3 "applications.interviews"
        (<["nested_names" := VList ["offers"]]> ∅) =
  list_ (L := Mock.library Mock.site) 3 "applications.interviews" ∅.
Proof.
  apply (list_nested_names_overwritten (L := Mock.library Mock.site)
           3 "applications.interviews" ∅ (VList ["offers"])).
  reflexivity.
Defined.

(** X7 for a filter named [request]. *)
Lemma list_request_keyword_witness :
  list_ (L := Mock.library Mock.site) 3 "jobs" (<["request" := VStr "x"]> ∅) ∅ =
  mkRun (L := Mock.library Mock.site) []
        [@EClientGetAttr (Mock.library Mock.site) (root_segment "jobs")]
        (Raise (TypeError "paginator() got multiple values for argument 'request'"))
        ∅.
Proof.
  apply (list_request_keyword (L := Mock.library Mock.site)
           3 "jobs" (<["request" := VStr "x"]> ∅) (VStr "x") ∅ "jobs" ∅).
  - reflexivity.
  - reflexivity.
Defined.

(** X8 on the two pages of applications: scoping calls for applications 1
    and 2 of the first page, none for application 3. *)
Lemma list_scopes_first_page_parents_witness :
  scoped_ids (trace (list_ (L := Mock.library Mock.site) 3
                           "applications.interviews" ∅ ∅)) =
    omap (fun row : Row => row !! "id") [Mock.row 1 "a1"; Mock.row 2 "a2"] /\
  List.length (scoped_ids (trace (list_ (L := Mock.library Mock.site) 3
                                        "applications.interviews" ∅ ∅))) =
    List.length [Mock.row 1 "a1"; Mock.row 2 "a2"].
Proof.
  apply (list_scopes_first_page_parents (L := Mock.library Mock.site)
           3 "applications.interviews" "applications" "interviews" ∅ ∅
           "applications" ∅
           [Mock.row 1 "a1"; Mock.row 2 "a2"]
           (<["applications" := [[Mock.row 3 "a3"]]]> ∅)
           Mock.interviews_pages
           (<["applications/2/interviews" := []]>
              (<["applications/1/interviews" := []]>
                 (<["applications" := [[Mock.row 3 "a3"]]]> ∅)))
           [[Mock.row 3 "a3"]]
           (<["applications" := []]>
              (<["applications/2/interviews" := []]>
                 (<["applications/1/interviews" := []]>
                    (<["applications" := [[Mock.row 3 "a3"]]]> ∅))))).
  - reflexivity.
  - reflexivity.
  - reflexivity.
  - reflexivity.
  - reflexivity.
  - apply (descend_pages_descends (L := Mock.library Mock.site) 2).
    reflexivity.
  - apply (drain_pages_drains (L := Mock.library Mock.site) 2).
    reflexivity.
  - repeat first [apply List.Forall_nil | apply List.Forall_cons; [simpl; lia|]].
  - simpl. lia.
Defined.

(** X9 on a page of applications whose second record has no [id]. *)
Lemma list_parent_without_id_witness :
  yielded (list_ (L := Scripted.library Scripted.outage) 3
                 "applications.interviews" ∅ ∅) =
    concat (map records [[[Mock.row 11 "i11"]]]) /\
  outcome (list_ (L := Scripted.library Scripted.outage) 3
                 "applications.interviews" ∅ ∅) = Raise (KeyError "id") /\
  final (list_ (L := Scripted.library Scripted.outage) 3
               "applications.interviews" ∅ ∅) =
    <["applications/1/interviews" := []]> (<["applications" := []]> ∅) /\
  scoped_ids (trace (list_ (L := Scripted.library Scripted.outage) 3
                           "applications.interviews" ∅ ∅)) =
    omap (fun row : Row => row !! "id") [Mock.row 1 "a1"].
Proof.
  apply (list_parent_without_id (L := Scripted.library Scripted.outage)
           3 "applications.interviews" "applications" "interviews" ∅ ∅
           "applications" ∅
           [Mock.row 1 "a1"] (<["name" := VStr "a2"]> ∅) [Mock.row 3 "a3"]
           (<["applications" := []]> ∅)
           [[[Mock.row 11 "i11"]]]
           (<["applications/1/interviews" := []]> (<["applications" := []]> ∅))).
  - reflexivity.
  - reflexivity.
  - reflexivity.
  - reflexivity.
  - reflexivity.
  - apply (descend_pages_descends (L := Scripted.library Scripted.outage) 2).
    reflexivity.
  - reflexivity.
  - repeat first [apply List.Forall_nil | apply List.Forall_cons; [simpl; lia|]].
  - lia.
Defined.

(** X10 on a library that never lowers the flag, after five steps. *)
Lemma list_never_stops_witness :
  outcome (list_ (L := Endless.library) 5 "jobs" ∅ 0%nat) = OutOfFuel /\
  trace (list_ (L := Endless.library) 6 "jobs" ∅ 0%nat) =
    @EClientGetAttr Endless.library "jobs"
    :: @EGet Endless.library "jobs" (<["per_page" := VInt DEFAULT_ITEMS_PER_PAGE]> ∅)
    :: replicate 5 (@EGetNext Endless.library "jobs").
Proof.
  apply (list_never_stops (L := Endless.library) "jobs" ∅ 0%nat "jobs" 0%nat [] 0%nat).
  - reflexivity.
  - reflexivity.
  - reflexivity.
  - reflexivity.
  - reflexivity.
  - intros w'. reflexivity.
  - intros w'. eexists _, _. reflexivity.
Defined.

(** The probes under the key that is denied four endpoints. *)
Lemma restricted_probe (entity : string) (w' : @World (Mock.library Mock.restricted)) :
  In entity ENTITIES ->
  if Mock.forbidden entity
  then denies (L := Mock.library Mock.restricted) entity w'
  else admits (L := Mock.library Mock.restricted) entity w'.
Proof.
  intros Hin. unfold ENTITIES in Hin. simpl in Hin.
  repeat (destruct Hin as [<-|Hin];
          [first [ exists Mock.denial; split; reflexivity | reflexivity ] |]).
  destruct Hin.
Defined.

(** X11 for that key. *)
Lemma get_accessible_endpoints_sublist_witness :
  List.filter (fun entity => negb (Mock.forbidden entity)) ENTITIES
    `sublist_of` ENTITIES.
Proof.
  apply (get_accessible_endpoints_sublist (L := Mock.library Mock.restricted)
           (List.filter (fun entity => negb (Mock.forbidden entity)) ENTITIES) ∅).
  reflexivity.
Defined.

(** X13 for that key. *)
Lemma get_accessible_endpoints_accounts_witness :
  (List.length (List.filter (fun entity => negb (Mock.forbidden entity)) ENTITIES)
   + List.length
       (warned (trace (get_accessible_endpoints (L := Mock.library Mock.restricted) ∅))) =
   List.length ENTITIES)%nat /\
  last (trace (get_accessible_endpoints (L := Mock.library Mock.restricted) ∅)) =
    Some (@ELogInfo (Mock.library Mock.restricted)
            (List.filter (fun entity => negb (Mock.forbidden entity)) ENTITIES)).
Proof.
  apply (get_accessible_endpoints_accounts (L := Mock.library Mock.restricted)
           (List.filter (fun entity => negb (Mock.forbidden entity)) ENTITIES) ∅).
  reflexivity.
Defined.

(** X16 for that key: some endpoints are left. *)
Lemma health_check_by_denials_witness :
  outcome (health_check (L := Mock.library Mock.restricted) ∅) =
  if forallb Mock.forbidden ENTITIES
  then Return (false, Some NO_ENDPOINTS_MESSAGE)
  else Return (true, None).
Proof.
  apply (health_check_by_denials (L := Mock.library Mock.restricted) Mock.forbidden ∅).
  intros entity w'. apply restricted_probe.
Defined.

(** X19 for that key and five declared streams. *)
Lemma streams_sublist_witness :
  [ {| name := "jobs"; json_schema := "{}" |};
    {| name := "applications"; json_schema := "{}" |} ]
    `sublist_of` Samples.declared /\
  Forall (fun stream => In (name stream) ENTITIES)
         [ {| name := "jobs"; json_schema := "{}" |};
           {| name := "applications"; json_schema := "{}" |} ].
Proof.
  apply (streams_sublist (L := Mock.library Mock.restricted) Samples.declared
           [ {| name := "jobs"; json_schema := "{}" |};
             {| name := "applications"; json_schema := "{}" |} ] ∅).
  reflexivity.
Defined.

(** X20 on the site where the second catalog entity answers with a server
    error. *)
Lemma streams_raises_where_health_check_answers_witness :
  outcome (streams (L := Mock.library Mock.site) Samples.declared ∅) =
    Raise (HTTPError "500 Server Error") /\
  outcome (health_check (L := Mock.library Mock.site) ∅) =
    Return (false, Some "500 Server Error").
Proof.
  apply (streams_raises_where_health_check_answers (L := Mock.library Mock.site)
           Samples.declared "500 Server Error" ∅).
  reflexivity.
Defined.

(** X21 for the key that is denied four endpoints. *)
Lemma streams_by_denials_witness :
  outcome (streams (L := Mock.library Mock.restricted) Samples.declared ∅) =
  Return (List.filter
            (fun stream =>
               py_in (name stream) ENTITIES && negb (Mock.forbidden (name stream)))
            Samples.declared).
Proof.
  apply (streams_by_denials (L := Mock.library Mock.restricted) Mock.forbidden
           Samples.declared ∅).
  intros entity w'. apply restricted_probe.
Defined.

(** X22 for the small base tables. *)
Lemma HarvestClient_init_keeps_base_witness :
  (forall name, String.prefix "demographics" name = false ->
     direct Samples.extended_base_uris !! name = direct Samples.base_uris !! name) /\
  (forall parent, String.prefix "demographics" parent = false ->
     parent <> "applications" ->
     related Samples.extended_base_uris !! parent = related Samples.base_uris !! parent) /\
  (forall rel, rel <> "demographics_answers" ->
     (related Samples.extended_base_uris !! "applications" ≫= fun relations => relations !! rel) =
     (related Samples.base_uris !! "applications" ≫= fun relations => relations !! rel)) /\
  (related Samples.extended_base_uris !! "applications"
     ≫= fun relations => relations !! "demographics_answers") =
    Some (list_only "applications/{rel_id}/demographics/answers").
Proof.
  apply (HarvestClient_init_keeps_base Samples.base_uris Samples.extended_base_uris).
  reflexivity.
Defined.

(** X24 for base tables that have the whole base catalog. *)
Lemma HarvestClient_init_resolves_catalog_witness :
  forallb (resolves (HarvestClient_init Samples.full_uris).2) ENTITIES = true.
Proof.
  apply forallb_forall.
  apply (HarvestClient_init_resolves_catalog Samples.full_uris
           (HarvestClient_init Samples.full_uris).2).
  - reflexivity.
  - intros entity Hin. unfold ENTITIES in Hin. simpl in Hin.
    repeat (destruct Hin as [<-|Hin];
            [intros Hown; first [reflexivity | discriminate Hown] |]).
    destruct Hin.
Defined.

(** X25 for the small base tables. *)
Lemma HarvestClient_init_idempotent_witness :
  HarvestClient_init Samples.extended_base_uris = (inr tt, Samples.extended_base_uris).
Proof.
  apply (HarvestClient_init_idempotent Samples.base_uris Samples.extended_base_uris).
  reflexivity.
Defined.
